(** * signals-saas-frontend: data hooks and portfolio editor

    A shallow embedding of the client-side logic of the dashboard:

    - [Hooks]: the three data hooks of [app/hooks/useDatabase.ts]
      ([usePortfolios], [useAnalyses], [useAlerts]) as state-passing
      functions over the hook's React state;
    - [Editor]: the position editor of [AnalysisApp] (row management,
      ticker resolution with per-row cancellation, exposures, and
      [runAnalysis]).

    Conventions.  A React state cell is a record field; a setter called with
    an updater ([setX(prev => f prev)]) is the field update by [f].  An
    [async] function is split at its [await]: what runs before the request
    is issued, and what runs once the outcome of the request is known.  The
    counters of the hooks ([total], [unreadCount]) hold whole numbers and
    are modelled as [Z].  The amount of a position is a JS number that the
    user types or the server sends: it is a double ([Number.number]), and
    the exposures are sums of doubles.

    A [string] holds the UTF-8 encoding of a JS string (so it has no
    unpaired surrogate). *)

From stdpp Require Import base strings list gmap pretty.
From Stdlib Require Import ZArith QArith Lia SpecFloat.

Local Open Scope string_scope.
Local Open Scope list_scope.
Local Open Scope Z_scope.

(** ** JavaScript idioms shared by both files *)

(** [a || b] on strings: the empty string is falsy. *)
Definition or_str (a b : string) : string :=
  if decide (a = "") then b else a.

(** [v || b] where [v] is a possibly missing ([undefined]/[null]) string. *)
Definition opt_or_str (v : option string) (b : string) : string :=
  match v with
  | Some a => or_str a b
  | None => b
  end.

(** Truthiness of a [string | null] value. *)
Definition truthy (v : option string) : bool :=
  match v with
  | Some a => bool_decide (a ≠ "")
  | None => false
  end.

(** [n || 0] on numbers: [0] is the only falsy integer, so this is the
    identity on [Z]; it is kept where the source writes it. *)
Definition or0 (n : Z) : Z := if decide (n = 0) then 0 else n.

(** JS numbers: IEEE 754 binary64, as [SpecFloat] specifies them (53 bits
    of precision, exponent of the infinities 1024; one NaN).  The doubles
    are the values [x] with [valid_binary prec emax x = true]; what is
    proved of every [number] holds of them. *)
Module Number.

Definition number := spec_float.

Definition prec : Z := 53.
Definition emax : Z := 1024.

(** The number that a whole-number literal denotes, and [Number(s)] for a
    string [s] that spells a whole number: the nearest double. *)
Definition of_Z (z : Z) : number := binary_normalize prec emax z 0 false.

(** [x + y] *)
Definition add (x y : number) : number := SFadd prec emax x y.

(** [Math.abs(x)] *)
Definition abs (x : number) : number := SFabs x.

(** The literal [0]. *)
Definition zero : number := S754_zero false.

(** Truthiness of a number: [0], [-0] and [NaN] are falsy. *)
Definition to_boolean (x : number) : bool :=
  match x with
  | S754_zero _ | S754_nan => false
  | _ => true
  end.

(** [x || 0] *)
Definition or0 (x : number) : number := if to_boolean x then x else zero.

(** [x === y] on numbers. *)
Definition eqb (x y : number) : bool := SFeqb x y.

(** [x < y] *)
Definition ltb (x y : number) : bool := SFltb x y.

(** [m] shifted left by [n] bits. *)
Definition shlp (m : positive) (n : nat) : positive := Nat.iter n xO m.

(** The double of sign [s] whose magnitude is the whole number [c], for
    [c] of at most 53 bits: the mantissa is [c] shifted up to 53 bits. *)
Definition canonical (s : bool) (c : positive) : number :=
  S754_finite s (shlp c (Z.to_nat (53 - Zpos (digits2_pos c))))
    (Zpos (digits2_pos c) - 53).

End Number.

(** The outcome of an [async] function: the promise rejects with an [Error]
    carrying a message, or resolves to a value. *)
Inductive result (A : Type) : Type :=
  | Throw (message : string)
  | Return (value : A).
Arguments Throw {A} message.
Arguments Return {A} value.

(** ** The data hooks ([app/hooks/useDatabase.ts]) *)

Module Hooks.

Record Position := { ticker : string; amount : Number.number }.

Record Portfolio := {
  pf_id : string;
  pf_user_id : string;
  pf_name : string;
  pf_description : option string;
  pf_positions : list Position;
  pf_is_default : bool;
  pf_is_tracked : bool;
  pf_created_at : string;
  pf_updated_at : string
}.

(** The scores of a summary are decimal fractions; they are kept as
    received, nothing in the hooks computes with them. *)
Record ResultSummary := {
  regime : option string;
  signal : option string;
  trend_score : option Q;
  z_score : option Q;
  rsi : option Q;
  cumulative_return : option Q
}.

Record AnalysisSummary := {
  an_id : string;
  an_user_id : string;
  an_portfolio_id : option string;
  an_portfolio_name : string;
  an_positions : list Position;
  an_analysis_period_days : Z;
  an_result_summary : ResultSummary;
  an_duration_ms : option Z;
  an_created_at : string;
  an_has_html_report : bool;
  an_has_ai_memo : bool
}.

Inductive alert_type := buy | sell | regime_change | drawdown | zscore_extreme.
Inductive severity := info | warning | critical.

Record Alert := {
  al_id : string;
  al_user_id : string;
  al_portfolio_id : string;
  al_portfolio_name : option string;
  al_alert_type : alert_type;
  al_severity : severity;
  al_signal_date : string;
  al_message : string;
  al_is_read : bool;
  al_created_at : string
}.

(** What a mutator observes of the [Response] of [authFetch]:
    - [ok]: [res.ok];
    - [detail]: the [detail] field of [await res.json().catch(() => ({}))],
      [None] when the body is not JSON or has no such field;
    - [entity]: [await res.json()] read as the entity the endpoint returns;
      [inl m] when that promise rejects with message [m]. *)
Record Response (A : Type) := {
  ok : bool;
  detail : option string;
  entity : string + A
}.
Arguments ok {A} _.
Arguments detail {A} _.
Arguments entity {A} _.

(** *** usePortfolios *)

Record PortfoliosState := {
  portfolios : list Portfolio;
  pf_loading : bool;
  pf_error : option string
}.




(** *** useAnalyses *)

Record AnalysesState := {
  analyses : list AnalysisSummary;
  an_loading : bool;
  an_error : option string;
  total : Z
}.

Definition setAnalyses (f : list AnalysisSummary → list AnalysisSummary)
    (st : AnalysesState) : AnalysesState :=
  {| analyses := f (analyses st);
     an_loading := an_loading st;
     an_error := an_error st;
     total := total st |}.

Definition setTotal (f : Z → Z) (st : AnalysesState) : AnalysesState :=
  {| analyses := analyses st;
     an_loading := an_loading st;
     an_error := an_error st;
     total := f (total st) |}.

Definition saveAnalysis (res : Response AnalysisSummary) (st : AnalysesState)
    : result AnalysisSummary * AnalysesState :=
  if negb (ok res) then
    (Throw (opt_or_str (detail res) "Failed to save analysis"), st)
  else
    match entity res with
    | inl m => (Throw m, st)
    | inr analysis =>
        (Return analysis,
         setTotal (λ prev, prev + 1)
           (setAnalyses (λ prev, analysis :: prev) st))
    end.

Definition deleteAnalysis (id : string) (res : Response unit)
    (st : AnalysesState) : result unit * AnalysesState :=
  if negb (ok res) then
    (Throw (opt_or_str (detail res) "Failed to delete analysis"), st)
  else
    (Return (),
     setTotal (λ prev, prev - 1)
       (setAnalyses (λ prev, filter (λ a, an_id a ≠ id) prev) st)).

(** *** useAlerts *)

Record AlertsState := {
  alerts : list Alert;
  unreadCount : Z;
  al_loading : bool;
  al_error : option string
}.

Definition setAlerts (f : list Alert → list Alert) (st : AlertsState)
    : AlertsState :=
  {| alerts := f (alerts st);
     unreadCount := unreadCount st;
     al_loading := al_loading st;
     al_error := al_error st |}.

Definition setUnreadCount (f : Z → Z) (st : AlertsState) : AlertsState :=
  {| alerts := alerts st;
     unreadCount := f (unreadCount st);
     al_loading := al_loading st;
     al_error := al_error st |}.

(** [{ ...a, is_read: true }] *)
Definition read (a : Alert) : Alert :=
  {| al_id := al_id a;
     al_user_id := al_user_id a;
     al_portfolio_id := al_portfolio_id a;
     al_portfolio_name := al_portfolio_name a;
     al_alert_type := al_alert_type a;
     al_severity := al_severity a;
     al_signal_date := al_signal_date a;
     al_message := al_message a;
     al_is_read := true;
     al_created_at := al_created_at a |}.

Definition markAsRead (id : string) (res : Response unit) (st : AlertsState)
    : result unit * AlertsState :=
  if negb (ok res) then (Throw "Failed to mark alert as read", st)
  else
    (Return (),
     setUnreadCount (λ prev, Z.max 0 (prev - 1))
       (setAlerts
          (λ prev, map (λ a, if decide (al_id a = id) then read a else a) prev)
          st)).

Definition markAllAsRead (res : Response unit) (st : AlertsState)
    : result unit * AlertsState :=
  if negb (ok res) then (Throw "Failed to mark all alerts as read", st)
  else
    (Return (),
     setUnreadCount (λ _, 0) (setAlerts (λ prev, map read prev) st)).

(** [alerts.find(a => a.id === id)?.is_read === false] *)
Definition wasUnread (id : string) (l : list Alert) : bool :=
  match find (λ a, bool_decide (al_id a = id)) l with
  | Some a => negb (al_is_read a)
  | None => false
  end.

(** [deleteAlert] reads [alerts] from its closure: [captured] is the
    list of the render whose [deleteAlert] was called, while [st] is the
    state when the response arrives, on which the updaters run. *)
Definition deleteAlert (captured : list Alert) (id : string)
    (res : Response unit) (st : AlertsState) : result unit * AlertsState :=
  if negb (ok res) then (Throw "Failed to delete alert", st)
  else
    let st' := setAlerts (λ prev, filter (λ a, al_id a ≠ id) prev) st in
    (Return (),
     if wasUnread id captured
     then setUnreadCount (λ prev, Z.max 0 (prev - 1)) st'
     else st').


(** The number of alerts of the list that are unread. *)
Definition unread_in (l : list Alert) : Z :=
  Z.of_nat (length (filter (λ a, al_is_read a = false) l)).

End Hooks.

(** Sample states and responses for the data hooks. *)

Module HooksSamples.
Import Hooks.

Definition sample_alert (i : string) (is_read : bool) : Alert :=
  {| al_id := i; al_user_id := "u1"; al_portfolio_id := "p1";
     al_portfolio_name := None; al_alert_type := buy; al_severity := info;
     al_signal_date := "2025-01-01"; al_message := "signal";
     al_is_read := is_read; al_created_at := "2025-01-01" |}.

(** A success response without a body, as a [DELETE] or [PATCH] returns. *)
Definition succeeded : Response unit :=
  {| ok := true; detail := None; entity := inr () |}.


(** One alert already read, one unread, and the matching counter. *)
Definition one_read_one_unread : AlertsState :=
  {| alerts := [sample_alert "a1" true; sample_alert "a2" false];
     unreadCount := 1; al_loading := false; al_error := None |}.

(** Two unread alerts and the matching counter. *)
Definition two_unread : AlertsState :=
  {| alerts := [sample_alert "a1" false; sample_alert "a2" false];
     unreadCount := 2; al_loading := false; al_error := None |}.



Definition sample_analysis (i : string) : AnalysisSummary :=
  {| an_id := i; an_user_id := "u1"; an_portfolio_id := None;
     an_portfolio_name := "Long/Short Portfolio"; an_positions := [];
     an_analysis_period_days := 180;
     an_result_summary :=
       {| regime := None; signal := None; trend_score := None;
          z_score := None; rsi := None; cumulative_return := None |};
     an_duration_ms := None; an_created_at := "2025-01-01";
     an_has_html_report := true; an_has_ai_memo := false |}.

Definition two_analyses : AnalysesState :=
  {| analyses := [sample_analysis "x"; sample_analysis "y"];
     an_loading := false; an_error := None; total := 2 |}.

End HooksSamples.

(** ** The position editor ([AnalysisApp]) *)

Module Editor.

Record Candidate := {
  name : string;
  provider : string;
  provider_symbol : string;
  type : string;
  exchange : option string;
  currency : option string;
  confidence : option Q
}.

Record PositionRow := {
  id : string;
  query : string;
  resolvedSymbol : option string;
  amount : Number.number;
  candidates : list Candidate;
  loading : bool;
  error : option string
}.

(** [Partial<PositionRow>]: every field may be present or absent. *)
Record Patch := {
  p_id : option string;
  p_query : option string;
  p_resolvedSymbol : option (option string);
  p_amount : option Number.number;
  p_candidates : option (list Candidate);
  p_loading : option bool;
  p_error : option (option string)
}.

(** [{ ...r, ...patch }] *)
Definition spread (r : PositionRow) (patch : Patch) : PositionRow :=
  {| id := default (id r) (p_id patch);
     query := default (query r) (p_query patch);
     resolvedSymbol := default (resolvedSymbol r) (p_resolvedSymbol patch);
     amount := default (amount r) (p_amount patch);
     candidates := default (candidates r) (p_candidates patch);
     loading := default (loading r) (p_loading patch);
     error := default (error r) (p_error patch) |}.

(** The row literal of [useState] and [addRow]. *)
Definition new_row (i : string) (amt : Number.number) : PositionRow :=
  {| id := i; query := ""; resolvedSymbol := None; amount := amt;
     candidates := []; loading := false; error := None |}.

(** *** Row management, on the [rows] state cell

    [uid()] draws its result from [Math.random] and the clock; the id it
    returns is an input of the model. *)

Definition updateRow (i : string) (patch : Patch) (prev : list PositionRow)
    : list PositionRow :=
  map (λ r, if decide (id r = i) then spread r patch else r) prev.

Definition addRow (uid : string) (prev : list PositionRow)
    : list PositionRow :=
  prev ++ [new_row uid (Number.of_Z 0)].

Definition removeRow (i : string) (rows : list PositionRow)
    : list PositionRow :=
  if decide (length rows ≤ 2)%nat then rows
  else filter (λ r, id r ≠ i) rows.

Definition initial_rows (uid1 uid2 : string) : list PositionRow :=
  [new_row uid1 (Number.of_Z 1000000); new_row uid2 (Number.of_Z (-1000000))].

(** *** Computed values *)

(** Each is a [reduce] over the rows from the literal [0]: the doubles
    are added one after the other, in the order of the rows, each sum
    rounded to the nearest double.  ([Number(x)] of a number is [x].) *)

Definition gross (rows : list PositionRow) : Number.number :=
  fold_left (λ s r, Number.add s (Number.abs (Number.or0 (amount r))))
    rows Number.zero.

Definition net (rows : list PositionRow) : Number.number :=
  fold_left (λ s r, Number.add s (Number.or0 (amount r))) rows Number.zero.

Definition longExposure (rows : list PositionRow) : Number.number :=
  fold_left
    (λ s r, Number.add s
              (if Number.ltb Number.zero (Number.or0 (amount r))
               then amount r else Number.zero))
    rows Number.zero.

Definition shortExposure (rows : list PositionRow) : Number.number :=
  fold_left
    (λ s r, Number.add s
              (if Number.ltb (Number.or0 (amount r)) Number.zero
               then Number.abs (amount r) else Number.zero))
    rows Number.zero.

(** [Number(r.amount || 0) !== 0] *)
Definition has_amount (r : PositionRow) : bool :=
  negb (Number.eqb (Number.or0 (amount r)) Number.zero).

(** [r.resolvedSymbol && Number(r.amount || 0) !== 0] *)
Definition is_position (r : PositionRow) : bool :=
  truthy (resolvedSymbol r) && has_amount r.

(** [Number(r.amount || 0) !== 0 && !r.resolvedSymbol] *)
Definition is_bad (r : PositionRow) : bool :=
  has_amount r && negb (truthy (resolvedSymbol r)).

Definition allResolved (rows : list PositionRow) : bool :=
  forallb
    (λ r, truthy (resolvedSymbol r)
          || Number.eqb (Number.or0 (amount r)) Number.zero)
    rows.

Definition hasPositions (rows : list PositionRow) : bool :=
  existsb is_position rows.

(** [{ ticker: r.resolvedSymbol!, amount: Number(r.amount) }] *)
Definition to_position (r : PositionRow) : Hooks.Position :=
  {| Hooks.ticker := default "" (resolvedSymbol r);
     Hooks.amount := amount r |}.

Definition currentPositions (rows : list PositionRow) : list Hooks.Position :=
  map to_position (List.filter is_position rows).

(** *** Network traffic and component state *)

Record Payload := {
  portfolio_name : string;
  analysis_period_days : Z;
  include_ai_memo : bool;
  positions : list Hooks.Position
}.

(** A call of [fetch]/[authFetch] made by the editor. *)
Inductive Request :=
  | GetResolve (query : string)
  | PostAnalyze (payload : Payload).

(** A [/resolve] request that has not settled yet.  [ctl] names the
    [AbortController] whose signal it was given; [aborted] is the state of
    that signal. *)
Record Pending := {
  ctl : nat;
  row : string;
  aborted : bool
}.

(** A JSON value kept as received. *)
Definition json := string.

Record App := {
  portfolioName : string;
  days : Z;
  rows : list PositionRow;
  running : bool;
  runError : option string;
  html : string;
  selectedPortfolioId : option string;
  analysisSaved : bool;
  validityData : option (json * option json);
  includeAiMemo : bool;
  (** [abortRefs.current]: row id to controller *)
  abortRefs : gmap string nat;
  (** the controllers allocated so far: [new AbortController()] yields
      the next one *)
  controllers : nat;
  (** the [/resolve] requests awaiting their response *)
  inflight : list Pending;
  (** every request sent so far, oldest first *)
  requests : list Request
}.

Definition setRows (f : list PositionRow → list PositionRow) (st : App) : App :=
  {| portfolioName := portfolioName st; days := days st;
     rows := f (rows st);
     running := running st; runError := runError st; html := html st;
     selectedPortfolioId := selectedPortfolioId st;
     analysisSaved := analysisSaved st; validityData := validityData st;
     includeAiMemo := includeAiMemo st; abortRefs := abortRefs st;
     controllers := controllers st; inflight := inflight st;
     requests := requests st |}.

(** The state cells written by [runAnalysis] and [handleLoadPortfolio]. *)
Definition setRun (run : bool) (err : option string) (h : string)
    (saved : bool) (v : option (json * option json)) (st : App) : App :=
  {| portfolioName := portfolioName st; days := days st; rows := rows st;
     running := run; runError := err; html := h;
     selectedPortfolioId := selectedPortfolioId st;
     analysisSaved := saved; validityData := v;
     includeAiMemo := includeAiMemo st; abortRefs := abortRefs st;
     controllers := controllers st; inflight := inflight st;
     requests := requests st |}.

Definition setSelected (nm : string) (sel : option string) (st : App) : App :=
  {| portfolioName := nm; days := days st; rows := rows st;
     running := running st; runError := runError st; html := html st;
     selectedPortfolioId := sel;
     analysisSaved := analysisSaved st; validityData := validityData st;
     includeAiMemo := includeAiMemo st; abortRefs := abortRefs st;
     controllers := controllers st; inflight := inflight st;
     requests := requests st |}.

(** The mutable side of ticker resolution: the controller table, the
    pending requests and the traffic log. *)
Definition setNet (refs : gmap string nat) (n : nat) (pend : list Pending)
    (reqs : list Request) (st : App) : App :=
  {| portfolioName := portfolioName st; days := days st; rows := rows st;
     running := running st; runError := runError st; html := html st;
     selectedPortfolioId := selectedPortfolioId st;
     analysisSaved := analysisSaved st; validityData := validityData st;
     includeAiMemo := includeAiMemo st; abortRefs := refs;
     controllers := n; inflight := pend; requests := reqs |}.

(** The component's state at its first render. *)
Definition init (uid1 uid2 : string) : App :=
  {| portfolioName := "Long/Short Portfolio"; days := 180;
     rows := initial_rows uid1 uid2;
     running := false; runError := None; html := "";
     selectedPortfolioId := None; analysisSaved := false;
     validityData := None; includeAiMemo := true;
     abortRefs := ∅; controllers := 0; inflight := []; requests := [] |}.

(** *** Ticker resolution *)

(** [q.trim()] strips the white-space characters at both ends of [q]. *)

(** The string of the given bytes. *)
Definition bytes (l : list nat) : string :=
  foldr (λ b s, String (Strings.Ascii.ascii_of_nat b) s) "" l.

(** The characters that [String.prototype.trim] strips, each in UTF-8: the
    WhiteSpace and LineTerminator code points of ECMAScript. *)
Definition white_space : list string :=
  bytes <$>
    [ [9]; [10]; [11]; [12]; [13]; [32];
      (* U+00A0 no-break space *)
      [194; 160];
      (* U+1680 *)
      [225; 154; 128];
      (* U+2000 to U+200A *)
      [226; 128; 128]; [226; 128; 129]; [226; 128; 130]; [226; 128; 131];
      [226; 128; 132]; [226; 128; 133]; [226; 128; 134]; [226; 128; 135];
      [226; 128; 136]; [226; 128; 137]; [226; 128; 138];
      (* U+2028 line separator, U+2029 paragraph separator *)
      [226; 128; 168]; [226; 128; 169];
      (* U+202F, U+205F, U+3000 *)
      [226; 128; 175]; [226; 129; 159]; [227; 128; 128];
      (* U+FEFF byte order mark *)
      [239; 187; 191] ]%nat.

Definition is_white_space (w : string) : bool :=
  bool_decide (w ∈ white_space).

(** [s] without the white-space characters it starts with.  A character
    takes one to three bytes. *)
Fixpoint trim_start (s : string) : string :=
  match s with
  | String a s1 =>
      if is_white_space (String a "") then trim_start s1
      else
        match s1 with
        | String b s2 =>
            if is_white_space (String a (String b "")) then trim_start s2
            else
              match s2 with
              | String c s3 =>
                  if is_white_space (String a (String b (String c "")))
                  then trim_start s3 else s
              | EmptyString => s
              end
        | EmptyString => s
        end
  | EmptyString => s
  end.

(** The same from the end, on the string read backwards. *)
Fixpoint trim_start_rev (s : string) : string :=
  match s with
  | String c s1 =>
      if is_white_space (String c "") then trim_start_rev s1
      else
        match s1 with
        | String b s2 =>
            if is_white_space (String b (String c "")) then trim_start_rev s2
            else
              match s2 with
              | String a s3 =>
                  if is_white_space (String a (String b (String c "")))
                  then trim_start_rev s3 else s
              | EmptyString => s
              end
        | EmptyString => s
        end
  | EmptyString => s
  end.

Definition trim_end (s : string) : string :=
  String.rev (trim_start_rev (String.rev s)).

(** [q.trim()] *)
Definition trim (s : string) : string := trim_end (trim_start s).

(** The patches passed to [updateRow] by [resolveRow] and by the handlers
    of the row's inputs. *)

(** [{ candidates: [], loading: false, error: null }] *)
Definition patch_cleared : Patch :=
  {| p_id := None; p_query := None; p_resolvedSymbol := None;
     p_amount := None; p_candidates := Some []; p_loading := Some false;
     p_error := Some None |}.

(** [{ loading: true, error: null }] *)
Definition patch_searching : Patch :=
  {| p_id := None; p_query := None; p_resolvedSymbol := None;
     p_amount := None; p_candidates := None; p_loading := Some true;
     p_error := Some None |}.

(** [{ resolvedSymbol: sym, candidates: [], loading: false }] *)
Definition patch_auto (sym : string) : Patch :=
  {| p_id := None; p_query := None; p_resolvedSymbol := Some (Some sym);
     p_amount := None; p_candidates := Some []; p_loading := Some false;
     p_error := None |}.

(** [{ candidates: cands, loading: false }] *)
Definition patch_candidates (cands : list Candidate) : Patch :=
  {| p_id := None; p_query := None; p_resolvedSymbol := None;
     p_amount := None; p_candidates := Some cands; p_loading := Some false;
     p_error := None |}.

(** [{ loading: false, error: msg }] *)
Definition patch_failed (msg : string) : Patch :=
  {| p_id := None; p_query := None; p_resolvedSymbol := None;
     p_amount := None; p_candidates := None; p_loading := Some false;
     p_error := Some (Some msg) |}.

(** [{ query: val, resolvedSymbol: null, candidates: [], error: null }] *)
Definition patch_typed (val : string) : Patch :=
  {| p_id := None; p_query := Some val; p_resolvedSymbol := Some None;
     p_amount := None; p_candidates := Some []; p_loading := None;
     p_error := Some None |}.

(** [{ resolvedSymbol: sym, query: sym, candidates: [] }] *)
Definition patch_picked (sym : string) : Patch :=
  {| p_id := None; p_query := Some sym; p_resolvedSymbol := Some (Some sym);
     p_amount := None; p_candidates := Some []; p_loading := None;
     p_error := None |}.

(** [{ amount: v }] *)
Definition patch_amount (v : Number.number) : Patch :=
  {| p_id := None; p_query := None; p_resolvedSymbol := None;
     p_amount := Some v; p_candidates := None; p_loading := None;
     p_error := None |}.

(** [controller.abort()] for controller [n]: the signal of the request
    that carries it, if that request is still pending, becomes aborted. *)
Definition abort (n : nat) (pend : list Pending) : list Pending :=
  map (λ p, if decide (ctl p = n)
            then {| ctl := ctl p; row := row p; aborted := true |}
            else p) pend.

(** [resolveRow] up to its first [await]. *)
Definition resolveRow (i q : string) (st : App) : App :=
  let query := trim q in
  if decide (query = "") then setRows (updateRow i patch_cleared) st
  else
    let pend :=
      match abortRefs st !! i with
      | Some n => abort n (inflight st)
      | None => inflight st
      end in
    let ac := controllers st in
    setRows (updateRow i patch_searching)
      (setNet (<[i := ac]> (abortRefs st)) (S ac)
         (pend ++ [{| ctl := ac; row := i; aborted := false |}])
         (requests st ++ [GetResolve query]) st).

(** How a [/resolve] request ends, when its signal is not aborted. *)
Inductive Outcome :=
  (** [fetch] rejects (no connection, ...) with this message *)
  | Unreachable (message : string)
  (** [!res.ok] *)
  | NotOk
  (** [res.json()] rejects with this message, or it resolves to [null]
      and reading [data.candidates] throws a [TypeError] with this
      message *)
  | Malformed (message : string)
  (** the body, as [data.auto_selected] (its truthiness) and
      [data.candidates || []] *)
  | Data (auto_selected : bool) (cands : list Candidate).

(** The rest of [resolveRow], run when the request of [p] settles.  A
    request whose signal is aborted rejects with an [AbortError], whatever
    the server answered. *)
Definition resolveRow_settled (p : Pending) (o : Outcome) (st : App) : App :=
  if aborted p then st
  else
    match o with
    | Data auto_selected cands =>
        match cands with
        | c :: _ =>
            if auto_selected
            then setRows (updateRow (row p) (patch_auto (provider_symbol c))) st
            else setRows (updateRow (row p) (patch_candidates cands)) st
        | [] => setRows (updateRow (row p) (patch_candidates cands)) st
        end
    | NotOk =>
        setRows
          (updateRow (row p) (patch_failed (or_str "Search failed" "Search error")))
          st
    | Unreachable m | Malformed m =>
        setRows (updateRow (row p) (patch_failed (or_str m "Search error"))) st
    end.

(** The request carrying controller [n] settles: it stops being pending
    and the rest of its [resolveRow] runs. *)
Definition settle (n : nat) (o : Outcome) (st : App) : App :=
  match find (λ p, bool_decide (ctl p = n)) (inflight st) with
  | Some p =>
      resolveRow_settled p o
        (setNet (abortRefs st) (controllers st)
           (filter (λ p', ctl p' ≠ n) (inflight st)) (requests st) st)
  | None => st
  end.

(** The [/resolve] requests of row [i] that are outstanding: pending and
    not aborted. *)
Definition outstanding (i : string) (st : App) : list Pending :=
  filter (λ p, row p = i ∧ aborted p = false) (inflight st).

(** *** Analysis submission *)

Definition no_positions_message : string :=
  "Please add at least one position with a resolved ticker and amount.".

Definition missing_ticker_message : string :=
  "One or more positions has an amount but no selected ticker.".

Definition session_expired_message : string :=
  "Session expired. Please refresh.".

Definition rate_limit_message : string :=
  "Rate limit exceeded. Please wait.".

(** [Number(days || 180)] *)
Definition period (d : Z) : Z := if decide (d = 0) then 180 else d.

(** [runAnalysis] up to its [await]. *)
Definition runAnalysis (st : App) : App :=
  let positions := map to_position (List.filter is_position (rows st)) in
  if decide (length positions = 0%nat) then
    setRun (running st) (Some no_positions_message) "" false None st
  else
    match find is_bad (rows st) with
    | Some bad =>
        setRun (running st) (Some missing_ticker_message) "" false None st
    | None =>
        let payload :=
          {| portfolio_name := portfolioName st;
             analysis_period_days := period (days st);
             include_ai_memo := includeAiMemo st;
             positions := positions |} in
        setNet (abortRefs st) (controllers st) (inflight st)
          (requests st ++ [PostAnalyze payload])
          (setRun true None "" false None st)
    end.

(** The JSON body of a successful [/analyze] response. *)
Record AnalyzeData := {
  html_report : option string;
  validity : option json;
  validity_full : option json
}.

(** What [runAnalysis] observes of the response: [res.status], the result
    of [res.text()] ([None] when it rejects) and the result of
    [res.json()] ([inl m] when it rejects with message [m], and when it
    resolves to [null], so that reading [data.html_report] throws a
    [TypeError] with message [m]). *)
Record AnalyzeResponse := {
  status : nat;
  text : option string;
  body : string + AnalyzeData
}.

(** [res.ok] *)
Definition res_ok (res : AnalyzeResponse) : bool :=
  bool_decide (200 ≤ status res ≤ 299)%nat.

Inductive AnalyzeOutcome :=
  (** [authFetch] rejects with this message *)
  | Rejected (message : string)
  | Responded (res : AnalyzeResponse).

(** What the [try] block of [runAnalysis] does with the outcome: the
    message it throws, or the data it stores. *)
Definition analyze_result (o : AnalyzeOutcome) : result AnalyzeData :=
  match o with
  | Rejected m => Throw m
  | Responded res =>
      if decide (status res = 401%nat) then Throw session_expired_message
      else if decide (status res = 429%nat) then Throw rate_limit_message
      else if negb (res_ok res) then
        let txt := default "" (text res) in
        Throw ("Analysis failed: " +:+ or_str txt ("HTTP " +:+ pretty (status res)))
      else
        match body res with
        | inl m => Throw m
        | inr data => Return data
        end
  end.

(** The rest of [runAnalysis], run when its request settles. *)
Definition runAnalysis_settled (o : AnalyzeOutcome) (st : App) : App :=
  match analyze_result o with
  | Return data =>
      setRun false (runError st) (opt_or_str (html_report data) "")
        (analysisSaved st)
        (match validity data with
         | Some v => Some (v, validity_full data)
         | None => validityData st
         end) st
  | Throw m =>
      setRun false (Some (or_str m "Failed to run analysis")) (html st)
        (analysisSaved st) (validityData st) st
  end.

(** [handleLoadPortfolio]; [uid k] is the id drawn for the row of the
    position at index [k].  (The toast it shows is not part of this
    model.) *)
Definition handleLoadPortfolio (uid : nat → string) (pf : Hooks.Portfolio)
    (st : App) : App :=
  let loaded :=
    imap (λ k p,
            {| id := uid k; query := Hooks.ticker p;
               resolvedSymbol := Some (Hooks.ticker p);
               amount := Hooks.amount p;
               candidates := []; loading := false; error := None |})
      (Hooks.pf_positions pf) in
  setRun (running st) (runError st) "" false (validityData st)
    (setRows (λ _, loaded)
       (setSelected (Hooks.pf_name pf) (Some (Hooks.pf_id pf)) st)).

(** *** The editor as a machine

    What can happen to the mounted component.  A handler of a row's
    controls closes over the row rendered at position [k]. *)
Inductive Event :=
  (** typing in the ticker input of row [k] *)
  | ChangeQuery (k : nat) (val : string)
  (** blur of, or Enter in, the ticker input of row [k] *)
  | Blur (k : nat)
  (** click on the [j]-th candidate shown under row [k] *)
  | Pick (k j : nat)
  (** typing in the amount input of row [k]; [v] is
      [Number(e.target.value)] *)
  | ChangeAmount (k : nat) (v : Number.number)
  (** click on Add Position; [uid] is the id drawn for the new row *)
  | ClickAdd (uid : string)
  (** click on the remove button of row [k] *)
  | ClickRemove (k : nat)
  | LoadPortfolio (uid : nat → string) (pf : Hooks.Portfolio)
  (** the [/resolve] request carrying controller [n] settles *)
  | Settled (n : nat) (o : Outcome)
  (** click on Run Analysis *)
  | ClickRun
  (** the [/analyze] request settles *)
  | Analyzed (o : AnalyzeOutcome).

Definition on_row (k : nat) (h : PositionRow → App → App) (st : App) : App :=
  match rows st !! k with
  | Some r => h r st
  | None => st
  end.

Definition step (st : App) (e : Event) : App :=
  match e with
  | ChangeQuery k val =>
      on_row k (λ r, setRows (updateRow (id r) (patch_typed val))) st
  | Blur k => on_row k (λ r, resolveRow (id r) (query r)) st
  | Pick k j =>
      on_row k
        (λ r st,
           match candidates r !! j with
           | Some c =>
               if truthy (resolvedSymbol r) then st
               else setRows (updateRow (id r) (patch_picked (provider_symbol c))) st
           | None => st
           end) st
  | ChangeAmount k v =>
      on_row k (λ r, setRows (updateRow (id r) (patch_amount (Number.or0 v)))) st
  | ClickAdd uid => setRows (addRow uid) st
  | ClickRemove k => on_row k (λ r, setRows (removeRow (id r))) st
  | LoadPortfolio uid pf => handleLoadPortfolio uid pf st
  | Settled n o => settle n o st
  | ClickRun =>
      (* the button is disabled in these cases *)
      if running st || negb (allResolved (rows st))
         || negb (hasPositions (rows st))
      then st else runAnalysis st
  | Analyzed o => if running st then runAnalysis_settled o st else st
  end.

Definition run (st : App) (es : list Event) : App := fold_left step es st.

(** *** Row operations on their own *)

Inductive RowOp :=
  | AddRow (uid : string)
  | RemoveRow (i : string)
  | UpdateRow (i : string) (patch : Patch).

Definition apply_op (rows : list PositionRow) (op : RowOp)
    : list PositionRow :=
  match op with
  | AddRow uid => addRow uid rows
  | RemoveRow i => removeRow i rows
  | UpdateRow i patch => updateRow i patch rows
  end.

Definition apply_ops (rows : list PositionRow) (ops : list RowOp)
    : list PositionRow :=
  fold_left apply_op ops rows.

(** The ids of the rows. *)
Definition ids (rows : list PositionRow) : list string := map id rows.

(** A run of row operations in which [uid()] never returns an id already
    in use and no patch rewrites a row's id (no call of [updateRow] in
    the component does). *)
Fixpoint ids_kept (rows : list PositionRow) (ops : list RowOp) : Prop :=
  match ops with
  | [] => True
  | op :: ops' =>
      match op with
      | AddRow uid => uid ∉ ids rows
      | RemoveRow _ => True
      | UpdateRow _ patch => p_id patch = None
      end ∧ ids_kept (apply_op rows op) ops'
  end.

(** At least two rows, with pairwise distinct ids: what a run of row
    operations preserves. *)
Definition two_distinct (l : list PositionRow) : Prop :=
  (2 ≤ length l)%nat ∧ NoDup (ids l).

(** What holds of the resolution bookkeeping in every state the editor
    reaches: pending requests carry distinct controllers, all allocated
    already, and a pending request that is not aborted carries the
    controller that [abortRefs] holds for its row. *)
Definition consistent (st : App) : Prop :=
  NoDup (map ctl (inflight st)) ∧
  (∀ p, p ∈ inflight st → (ctl p < controllers st)%nat) ∧
  (∀ p, p ∈ inflight st → aborted p = false →
        abortRefs st !! row p = Some (ctl p)).

(** *** The specification's vocabulary *)

(** The amounts of the rows are the whole numbers [zs], row by row. *)
Definition whole_amounts (rows : list PositionRow) (zs : list Z) : Prop :=
  map amount rows = map Number.of_Z zs.

(** The sum of [f] over the whole numbers [zs]. *)
Definition sum_of (f : Z → Z) (zs : list Z) : Z :=
  foldr (λ z acc, f z + acc) 0 zs.

(** The amount is a number other than zero. *)
Definition nonzero (x : Number.number) : Prop :=
  match x with
  | S754_zero _ | S754_nan => False
  | _ => True
  end.



(** The row has a resolved symbol. *)
Definition resolved (r : PositionRow) : Prop :=
  ∃ sym, resolvedSymbol r = Some sym ∧ sym ≠ "".

(** No row has both a resolved symbol and a nonzero amount. *)
Definition no_position (rows : list PositionRow) : Prop :=
  ∀ r, r ∈ rows → ¬ (resolved r ∧ nonzero (amount r)).

(** Some row has a nonzero amount but no resolved symbol. *)
Definition some_unresolved (rows : list PositionRow) : Prop :=
  ∃ r, r ∈ rows ∧ nonzero (amount r) ∧ ¬ resolved r.

End Editor.

(** Sample rows and states for the editor. *)

Module EditorSamples.
Import Editor.

Definition three_rows : list PositionRow :=
  [new_row "r1" (Number.of_Z 1000000); new_row "r2" (Number.of_Z (-1000000));
   new_row "r3" (Number.of_Z 0)].

(** One row with a query typed and an amount, not resolved. *)
Definition unresolved_row : PositionRow :=
  {| id := "r1"; query := "AAPL"; resolvedSymbol := None;
     amount := Number.of_Z 100;
     candidates := []; loading := false; error := None |}.

Definition resolved_row (i sym : string) (amt : Z) : PositionRow :=
  {| id := i; query := sym; resolvedSymbol := Some sym;
     amount := Number.of_Z amt;
     candidates := []; loading := false; error := None |}.

Definition with_rows (rows : list PositionRow) : App :=
  setRows (λ _, rows) (init "r1" "r2").

(** Two resolved rows, long AAPL and short MSFT. *)
Definition long_short : App :=
  with_rows [resolved_row "r1" "AAPL" 1000000;
             resolved_row "r2" "MSFT" (-1000000)].


Definition candidate (sym nm : string) : Candidate :=
  {| name := nm; provider := "yahoo"; provider_symbol := sym;
     type := "EQUITY"; exchange := Some "NMS"; currency := Some "USD";
     confidence := None |}.

End EditorSamples.

(** ** The fetchers of the data hooks ([app/hooks/useDatabase.ts]) *)

Module Fetchers.
Import Hooks.

(** A value caught by [catch (err)]: an [Error] with its message, or
    something that is not an [Error]. *)
Inductive Thrown :=
  | AnError (message : string)
  | NotAnError.

(** [err instanceof Error ? err.message : 'Unknown error'] *)
Definition error_text (e : Thrown) : string :=
  match e with
  | AnError m => m
  | NotAnError => "Unknown error"
  end.

(** What [res.json()] gives. *)
Inductive Body (A : Type) :=
  (** the promise rejects with this value *)
  | NotJson (e : Thrown)
  (** it resolves to [null]: reading the first field of [data] throws a
      [TypeError], an [Error] with this message *)
  | JsonNull (message : string)
  (** it resolves to any other value, of which the fields are read *)
  | Json (data : A).
Arguments NotJson {A} e.
Arguments JsonNull {A} message.
Arguments Json {A} data.

(** How the request of a fetcher ends: [authFetch] rejects, or it resolves
    to a response with its [res.ok] and its body. *)
Inductive Fetched (A : Type) :=
  | Rejects (e : Thrown)
  | Responds (ok : bool) (json : Body A).
Arguments Rejects {A} e.
Arguments Responds {A} ok json.

(** The [try] block of a fetcher up to the state updates: the value caught,
    or the body. *)
Definition fetched {A} (failure : string) (o : Fetched A) : Thrown + A :=
  match o with
  | Rejects e => inl e
  | Responds ok json =>
      if negb ok then inl (AnError failure)
      else
        match json with
        | NotJson e => inl e
        | JsonNull m => inl (AnError m)
        | Json data => inr data
        end
  end.

(** The bodies, with the fields the fetchers read; a field may be missing
    (every field is, of a body that is a number, a string, a boolean or an
    array). *)
Record PortfoliosData := { d_portfolios : option (list Portfolio) }.

Record AnalysesData := {
  d_analyses : option (list AnalysisSummary);
  d_total : option Z
}.

Record AlertsData := {
  d_alerts : option (list Alert);
  d_unread_count : option Z
}.

(** Each fetcher is split at its [await]: [setLoading(true)] runs before the
    request, the rest when it has ended.  (The URL of the request, with the
    query parameters of [fetchAnalyses] and [fetchAlerts], is not part of
    this model.) *)

Definition fetchPortfolios_start (st : PortfoliosState) : PortfoliosState :=
  {| portfolios := portfolios st; pf_loading := true; pf_error := pf_error st |}.

Definition fetchPortfolios (o : Fetched PortfoliosData) (st : PortfoliosState)
    : PortfoliosState :=
  match fetched "Failed to fetch portfolios" o with
  | inr data =>
      {| portfolios := default [] (d_portfolios data);
         pf_loading := false; pf_error := None |}
  | inl err =>
      {| portfolios := portfolios st;
         pf_loading := false; pf_error := Some (error_text err) |}
  end.

Definition fetchAnalyses_start (st : AnalysesState) : AnalysesState :=
  {| analyses := analyses st; an_loading := true; an_error := an_error st;
     total := total st |}.

Definition fetchAnalyses (o : Fetched AnalysesData) (st : AnalysesState)
    : AnalysesState :=
  match fetched "Failed to fetch analyses" o with
  | inr data =>
      {| analyses := default [] (d_analyses data);
         an_loading := false; an_error := None;
         total := or0 (default 0 (d_total data)) |}
  | inl err =>
      {| analyses := analyses st;
         an_loading := false; an_error := Some (error_text err);
         total := total st |}
  end.

Definition fetchAlerts_start (st : AlertsState) : AlertsState :=
  {| alerts := alerts st; unreadCount := unreadCount st; al_loading := true;
     al_error := al_error st |}.

Definition fetchAlerts (o : Fetched AlertsData) (st : AlertsState)
    : AlertsState :=
  match fetched "Failed to fetch alerts" o with
  | inr data =>
      {| alerts := default [] (d_alerts data);
         unreadCount := or0 (default 0 (d_unread_count data));
         al_loading := false; al_error := None |}
  | inl err =>
      {| alerts := alerts st; unreadCount := unreadCount st;
         al_loading := false; al_error := Some (error_text err) |}
  end.

(** [AnalysisFull extends AnalysisSummary] *)
Record AnalysisFull := {
  summary : AnalysisSummary;
  html_report : option string;
  ai_memo : option string
}.

(** [getAnalysis]: no state of the hook is touched. *)
Definition getAnalysis (res : Response AnalysisFull)
    : result AnalysisFull :=
  if negb (ok res) then Throw (opt_or_str (detail res) "Failed to fetch analysis")
  else
    match entity res with
    | inl m => Throw m
    | inr analysis => Return analysis
    end.

(** *** Vocabulary for the hooks' invariants *)

(** The unread counter agrees with the list. *)
Definition in_sync (st : AlertsState) : Prop :=
  unreadCount st = unread_in (alerts st).

(** [total] agrees with the list (as after a fetch of the whole
    collection). *)
Definition counted (st : AnalysesState) : Prop :=
  total st = Z.of_nat (length (analyses st)).

End Fetchers.

(** ** Toasts and format helpers of [AnalysisApp] *)

Module Toasts.

Inductive ToastType := success | error | info.

Record Toast := { id : string; type : ToastType; message : string }.

(** [showToast]: the toast is appended; the timer it sets is [expire]
    below, run after the delay.  [uid] is the id drawn by [uid()]. *)
Definition showToast (uid : string) (ty : ToastType) (msg : string)
    (prev : list Toast) : list Toast :=
  prev ++ [{| id := uid; type := ty; message := msg |}].

(** The callback of the timer set by [showToast] for the toast [i]. *)
Definition expire (i : string) (prev : list Toast) : list Toast :=
  filter (λ t, id t ≠ i) prev.

Definition dismissToast (i : string) (prev : list Toast) : list Toast :=
  filter (λ t, id t ≠ i) prev.

End Toasts.

Module Format.

(** What [formatDate] returns: one of its own relative labels, or the
    result of [date.toLocaleDateString] for the date ([None] for an invalid
    date). *)
Inductive DateLabel :=
  | Relative (text : string)
  | Localized (date : option Z).

(** [formatDate]; [now] is [new Date().getTime()] and [date] is
    [new Date(dateString).getTime()], in milliseconds, [None] when the
    string does not parse ([NaN]: every comparison is then false). *)
Definition formatDate (now : Z) (date : option Z) : DateLabel :=
  match date with
  | None => Localized None
  | Some t =>
      let diffMs := now - t in
      let diffMins := diffMs / 60000 in
      let diffHours := diffMs / 3600000 in
      let diffDays := diffMs / 86400000 in
      if decide (diffMins < 1) then Relative "Just now"
      else if decide (diffMins < 60) then Relative (pretty diffMins +:+ "m ago")
      else if decide (diffHours < 24) then Relative (pretty diffHours +:+ "h ago")
      else if decide (diffDays < 7) then Relative (pretty diffDays +:+ "d ago")
      else Localized (Some t)
  end.

Record AlertColor := { bg : string; border : string; color : string }.

Definition default_color : AlertColor :=
  {| bg := "rgba(79, 195, 247, 0.1)"; border := "rgba(79, 195, 247, 0.3)";
     color := "#4fc3f7" |}.

Definition getAlertColor (type : string) : AlertColor :=
  if decide (type = "BUY_SIGNAL") then
    {| bg := "rgba(0, 184, 148, 0.1)"; border := "rgba(0, 184, 148, 0.3)";
       color := "#00b894" |}
  else if decide (type = "SELL_SIGNAL") then
    {| bg := "rgba(231, 76, 60, 0.1)"; border := "rgba(231, 76, 60, 0.3)";
       color := "#e74c3c" |}
  else if decide (type = "REGIME_CHANGE") then
    {| bg := "rgba(243, 156, 18, 0.1)"; border := "rgba(243, 156, 18, 0.3)";
       color := "#f39c12" |}
  else default_color.

(** The string of each value of [Alert['alert_type']]. *)
Definition alert_type_text (t : Hooks.alert_type) : string :=
  match t with
  | Hooks.buy => "buy"
  | Hooks.sell => "sell"
  | Hooks.regime_change => "regime_change"
  | Hooks.drawdown => "drawdown"
  | Hooks.zscore_extreme => "zscore_extreme"
  end.

End Format.

(** ** The upload panel ([UploadDataPanel]) *)

Module Upload.

Record SeriesWeight := {
  name : string;
  weight : Q;
  include : bool
}.

Inductive DateStatus := detected | sequential.

Record ValidationData := {
  series : list string;
  row_count : Z;
  date_status : option DateStatus;
  date_range : option (string * string);
  frequency : option string
}.

Record ValidationResult := {
  valid : bool;
  errors : list string;
  warnings : list string;
  data : option ValidationData
}.

(** A [File] chosen by the user, named by its content. *)
Definition File := string.

(** [Object.fromEntries(entries)]: a later entry replaces an earlier one
    with the same key. *)
Definition fromEntries (entries : list (string * Q)) : gmap string Q :=
  fold_left (λ obj e, <[e.1 := e.2]> obj) entries ∅.

(** The requests of the panel, with the fields of their form data. *)
Inductive Request :=
  | PostValidate (file : File)
  | PostCustom (file : File) (weights : gmap string Q) (context : string)
      (include_ai_memo : bool) (analysis_name : string).

Record Panel := {
  file : option File;
  validation : option ValidationResult;
  seriesWeights : list SeriesWeight;
  context : string;
  includeAiMemo : bool;
  analysisName : string;
  isValidating : bool;
  isAnalyzing : bool;
  error : option string;
  htmlResult : option string;
  dataDeleted : bool;
  (** the validation requests awaiting their response (no state cell of
      the component: several can be in flight, one per file chosen) *)
  validating : nat;
  (** every request sent so far, oldest first *)
  sent : list Request
}.

Definition initial : Panel :=
  {| file := None; validation := None; seriesWeights := []; context := "";
     includeAiMemo := true; analysisName := "Custom Analysis";
     isValidating := false; isAnalyzing := false; error := None;
     htmlResult := None; dataDeleted := false; validating := 0;
     sent := [] |}.

(** [handleFileSelect] up to its [await]. *)
Definition handleFileSelect (selectedFile : File) (st : Panel) : Panel :=
  {| file := Some selectedFile; validation := None; seriesWeights := [];
     context := context st; includeAiMemo := includeAiMemo st;
     analysisName := analysisName st; isValidating := true;
     isAnalyzing := isAnalyzing st; error := None; htmlResult := None;
     dataDeleted := false; validating := S (validating st);
     sent := sent st ++ [PostValidate selectedFile] |}.

(** How the validation request ends. *)
Inductive Validated :=
  (** [fetch] or [res.json()] rejects with this message *)
  | ValidateThrows (message : string)
  (** [!res.ok], with [res.statusText] *)
  | ValidateNotOk (statusText : string)
  (** the body is JSON [null]: [setValidation(null)] runs, then reading
      [result.valid] throws a [TypeError] with this message *)
  | ValidateNull (message : string)
  | ValidateResult (result : ValidationResult).

(** [{ name, weight: 1.0, include: true }] *)
Definition included (nm : string) : SeriesWeight :=
  {| name := nm; weight := 1; include := true |}.

(** The weights after a validation: [result.valid && result.data &&
    result.data.series.length > 0] guards their update. *)
Definition initial_weights (result : ValidationResult)
    (prev : list SeriesWeight) : list SeriesWeight :=
  match data result with
  | Some d =>
      if valid result && bool_decide (0 < length (series d))%nat
      then map included (series d) else prev
  | None => prev
  end.

(** The message of the error caught when the validation is no success. *)
Definition validate_error (o : Validated) : string :=
  match o with
  | ValidateThrows m | ValidateNull m => m
  | ValidateNotOk statusText => "Validation failed: " +:+ statusText
  | ValidateResult _ => ""
  end.

(** The rest of [handleFileSelect]. *)
Definition handleFileSelect_settled (o : Validated) (st : Panel) : Panel :=
  match o with
  | ValidateResult result =>
      {| file := file st; validation := Some result;
         seriesWeights := initial_weights result (seriesWeights st);
         context := context st; includeAiMemo := includeAiMemo st;
         analysisName := analysisName st; isValidating := false;
         isAnalyzing := isAnalyzing st; error := error st;
         htmlResult := htmlResult st; dataDeleted := dataDeleted st;
         validating := validating st; sent := sent st |}
  | _ =>
      {| file := file st;
         validation :=
           match o with ValidateNull _ => None | _ => validation st end;
         seriesWeights := seriesWeights st; context := context st;
         includeAiMemo := includeAiMemo st;
         analysisName := analysisName st; isValidating := false;
         isAnalyzing := isAnalyzing st;
         error := Some (or_str (validate_error o) "Failed to validate file");
         htmlResult := htmlResult st; dataDeleted := dataDeleted st;
         validating := validating st; sent := sent st |}
  end.

Definition setSeriesWeights (f : list SeriesWeight → list SeriesWeight)
    (st : Panel) : Panel :=
  {| file := file st; validation := validation st;
     seriesWeights := f (seriesWeights st); context := context st;
     includeAiMemo := includeAiMemo st; analysisName := analysisName st;
     isValidating := isValidating st; isAnalyzing := isAnalyzing st;
     error := error st; htmlResult := htmlResult st;
     dataDeleted := dataDeleted st; validating := validating st;
     sent := sent st |}.

(** [prev.map((s, i) => i === index ? { ...s, weight } : s)] *)
Definition updateWeight (index : nat) (w : Q) (prev : list SeriesWeight)
    : list SeriesWeight :=
  imap (λ i s, if decide (i = index)
               then {| name := name s; weight := w; include := include s |}
               else s) prev.

(** [prev.map((s, i) => i === index ? { ...s, include: !s.include } : s)] *)
Definition toggleInclude (index : nat) (prev : list SeriesWeight)
    : list SeriesWeight :=
  imap (λ i s, if decide (i = index)
               then {| name := name s; weight := weight s;
                       include := negb (include s) |}
               else s) prev.

(** [seriesWeights.filter(s => s.include)] *)
Definition activeWeights (l : list SeriesWeight) : list SeriesWeight :=
  List.filter include l.

(** [Object.fromEntries(activeWeights.map(s => [s.name, s.weight]))] *)
Definition weights_sent (l : list SeriesWeight) : gmap string Q :=
  fromEntries (map (λ s, (name s, weight s)) (activeWeights l)).

(** [runAnalysis] of the panel, up to its [await]. *)
Definition runAnalysis (st : Panel) : Panel :=
  match file st, validation st with
  | Some f, Some v =>
      if negb (valid v) then st
      else if decide (length (activeWeights (seriesWeights st)) = 0%nat) then
        {| file := file st; validation := validation st;
           seriesWeights := seriesWeights st; context := context st;
           includeAiMemo := includeAiMemo st;
           analysisName := analysisName st;
           isValidating := isValidating st; isAnalyzing := isAnalyzing st;
           error := Some "Please include at least one series";
           htmlResult := htmlResult st; dataDeleted := dataDeleted st;
           validating := validating st; sent := sent st |}
      else
        {| file := file st; validation := validation st;
           seriesWeights := seriesWeights st; context := context st;
           includeAiMemo := includeAiMemo st;
           analysisName := analysisName st;
           isValidating := isValidating st; isAnalyzing := true;
           error := None; htmlResult := htmlResult st;
           dataDeleted := false; validating := validating st;
           sent := sent st ++
                   [PostCustom f (weights_sent (seriesWeights st)) (context st)
                      (includeAiMemo st) (analysisName st)] |}
  | _, _ => st
  end.

(** How the analysis request ends. *)
Inductive Analyzed :=
  (** [fetch] or [res.text()] rejects with this message, or the body of a
      non-success response is JSON [null] and reading [errorData.detail]
      throws a [TypeError] with this message *)
  | AnalyzeThrows (message : string)
  (** [!res.ok]: [res.statusText] and the [detail] of the JSON body ([None]
      when the body is not JSON, [Some None] when it is and has no
      [detail]) *)
  | AnalyzeNotOk (statusText : string) (detail : option (option string))
  (** the body text of a success response *)
  | AnalyzeHtml (html : string).

(** The message of the error caught when the analysis is no success. *)
Definition analyze_error (o : Analyzed) : string :=
  match o with
  | AnalyzeThrows m => m
  | AnalyzeNotOk statusText detail =>
      opt_or_str (default (Some statusText) detail) "Analysis failed"
  | AnalyzeHtml _ => ""
  end.

(** The rest of [runAnalysis].  (The [onAnalysisComplete] callback and the
    scrolling are not part of this model.) *)
Definition runAnalysis_settled (o : Analyzed) (st : Panel) : Panel :=
  match o with
  | AnalyzeHtml html =>
      {| file := file st; validation := validation st;
         seriesWeights := seriesWeights st; context := context st;
         includeAiMemo := includeAiMemo st;
         analysisName := analysisName st; isValidating := isValidating st;
         isAnalyzing := false; error := error st; htmlResult := Some html;
         dataDeleted := true; validating := validating st;
         sent := sent st |}
  | _ =>
      {| file := file st; validation := validation st;
         seriesWeights := seriesWeights st; context := context st;
         includeAiMemo := includeAiMemo st;
         analysisName := analysisName st; isValidating := isValidating st;
         isAnalyzing := false;
         error := Some (or_str (analyze_error o) "Analysis failed");
         htmlResult := htmlResult st; dataDeleted := dataDeleted st;
         validating := validating st; sent := sent st |}
  end.

Definition resetForm (st : Panel) : Panel :=
  {| file := None; validation := None; seriesWeights := []; context := "";
     includeAiMemo := includeAiMemo st; analysisName := "Custom Analysis";
     isValidating := isValidating st; isAnalyzing := isAnalyzing st;
     error := None; htmlResult := None; dataDeleted := false;
     validating := validating st; sent := sent st |}.

(** *** The panel as a machine

    The result view replaces the form while [htmlResult] is truthy; the
    weights, the toggles and the run button are rendered while the
    validation is valid and has data. *)

Definition showing_result (st : Panel) : bool := truthy (htmlResult st).

Definition configuring (st : Panel) : bool :=
  match validation st with
  | Some v => valid v && bool_decide (is_Some (data v))
              && negb (showing_result st)
  | None => false
  end.

Inductive Event :=
  (** a file is dropped or chosen *)
  | SelectFile (f : File)
  | ValidationEnds (o : Validated)
  (** typing in the weight input of series [index]; [w] is
      [parseFloat(e.target.value) || 0] *)
  | ChangeWeight (index : nat) (w : Q)
  | Toggle (index : nat)
  | ClickRun
  | AnalysisEnds (o : Analyzed)
  (** click on New Analysis *)
  | ClickReset.

Definition step (st : Panel) (e : Event) : Panel :=
  match e with
  | SelectFile f => if showing_result st then st else handleFileSelect f st
  | ValidationEnds o =>
      match validating st with
      | S n =>
          let st' := handleFileSelect_settled o st in
          {| file := file st'; validation := validation st';
             seriesWeights := seriesWeights st'; context := context st';
             includeAiMemo := includeAiMemo st';
             analysisName := analysisName st';
             isValidating := isValidating st';
             isAnalyzing := isAnalyzing st'; error := error st';
             htmlResult := htmlResult st'; dataDeleted := dataDeleted st';
             validating := n; sent := sent st' |}
      | O => st
      end
  | ChangeWeight index w =>
      match seriesWeights st !! index with
      | Some s =>
          (* the input of an excluded series is disabled *)
          if configuring st && include s
          then setSeriesWeights (updateWeight index w) st else st
      | None => st
      end
  | Toggle index =>
      if configuring st then setSeriesWeights (toggleInclude index) st else st
  | ClickRun =>
      (* the button is disabled in these cases *)
      if negb (configuring st) || isAnalyzing st
         || bool_decide (length (activeWeights (seriesWeights st)) = 0%nat)
      then st else runAnalysis st
  | AnalysisEnds o => if isAnalyzing st then runAnalysis_settled o st else st
  | ClickReset => if showing_result st then resetForm st else st
  end.

Definition run (st : Panel) (es : list Event) : Panel := fold_left step es st.

End Upload.

(** ** The authenticated fetch wrapper ([AuthenticatedApp]) *)

Module Auth.

(** The lower-case form of a header name: [Headers] is keyed by names
    without regard to the case of ASCII letters. *)
Definition lower_ascii (a : Strings.Ascii.ascii) : Strings.Ascii.ascii :=
  let n := Strings.Ascii.nat_of_ascii a in
  if (65 <=? n)%nat && (n <=? 90)%nat
  then Strings.Ascii.ascii_of_nat (n + 32) else a.

Fixpoint lower (s : string) : string :=
  match s with
  | String a s' => String (lower_ascii a) (lower s')
  | EmptyString => EmptyString
  end.

(** A [Headers] object: the value of each header it has, by lower-cased
    name.  (Names are taken to be valid header names and values to carry no
    surrounding white space, as everywhere in this repository.) *)
Definition append (nm value : string) (h : gmap string string)
    : gmap string string :=
  match h !! lower nm with
  | Some v => <[lower nm := v +:+ ", " +:+ value]> h
  | None => <[lower nm := value]> h
  end.

(** [new Headers(init)], for an [init] given as an object: its entries in
    order. *)
Definition new_Headers (init : list (string * string)) : gmap string string :=
  fold_left (λ h e, append e.1 e.2 h) init ∅.

(** [headers.set(name, value)] *)
Definition set (nm value : string) (h : gmap string string)
    : gmap string string :=
  <[lower nm := value]> h.

(** [headers.has(name)] *)
Definition has (nm : string) (h : gmap string string) : bool :=
  bool_decide (is_Some (h !! lower nm)).

(** [headers.get(name)] *)
Definition get (nm : string) (h : gmap string string) : option string :=
  h !! lower nm.

Record RequestInit := {
  method : option string;
  headers : list (string * string);
  body : option string
}.

(** What is passed to [fetch]. *)
Record Fetch := {
  f_url : string;
  f_method : option string;
  f_headers : gmap string string;
  f_body : option string
}.

(** [authFetch(url, options)], with [token] the result of [getToken()]
    ([None] for [null]). *)
Definition authFetch (token : option string) (url : string)
    (options : RequestInit) : Fetch :=
  let headers := new_Headers (headers options) in
  let headers :=
    if truthy token
    then set "Authorization" ("Bearer " +:+ default "" token) headers
    else headers in
  let headers :=
    if truthy (body options) && negb (has "Content-Type" headers)
    then set "Content-Type" "application/json" headers
    else headers in
  {| f_url := url; f_method := method options; f_headers := headers;
     f_body := body options |}.

(** The caller named this header, in some letter case. *)
Definition names (nm : string) (init : list (string * string)) : Prop :=
  ∃ e, e ∈ init ∧ lower e.1 = lower nm.

End Auth.

(** ** Invariants of the editor *)

Module EditorInvariants.
Import Editor.

(** Beyond [consistent]: the controllers held in [abortRefs] are allocated,
    and a pending request whose controller [abortRefs] holds for a row is a
    request of that row. *)
Definition tracked (st : App) : Prop :=
  consistent st ∧
  (∀ i n, abortRefs st !! i = Some n → (n < controllers st)%nat) ∧
  (∀ p i, p ∈ inflight st → abortRefs st !! i = Some (ctl p) → row p = i).

(** A row shown as searching has an outstanding request. *)
Definition searching_is_pending (st : App) : Prop :=
  ∀ r, r ∈ rows st → loading r = true → outstanding (id r) st ≠ [].

(** While a run is in flight, and whenever an error is shown, no report
    and no validity data are held. *)
Definition no_stale_report (st : App) : Prop :=
  (running st = true →
   runError st = None ∧ html st = "" ∧ validityData st = None) ∧
  (runError st ≠ None → html st = "" ∧ validityData st = None).

(** Not empty, and no white-space character at either end. *)
Definition trimmed (s : string) : Prop :=
  s ≠ "" ∧ ∀ w rest, w ∈ white_space → s ≠ w +:+ rest ∧ s ≠ rest +:+ w.

(** The positions the editor submits and saves have a non-empty ticker and
    a nonzero amount. *)
Definition submittable (p : Hooks.Position) : Prop :=
  Hooks.ticker p ≠ "" ∧ nonzero (Hooks.amount p).

(** The queries of the [/resolve] requests of a log. *)
Definition queries (reqs : list Request) : list string :=
  omap (λ r, match r with GetResolve q => Some q | PostAnalyze _ => None end)
    reqs.

End EditorInvariants.

(** Further sample values. *)

Module MoreSamples.
Import Hooks HooksSamples.

(** A success response whose body is the entity [a]. *)
Definition returned {A} (a : A) : Response A :=
  {| ok := true; detail := None; entity := inr a |}.



End MoreSamples.

Module EditorMoreSamples.
Import Editor EditorSamples.

(** Row r1 was given the query AAP and left: its request is in flight. *)
Definition searching_r1 : App :=
  run (init "r1" "r2") [ChangeQuery 0 "AAP"; Blur 0].

End EditorMoreSamples.

Module UploadSamples.
Import Upload.

Definition spx_ndx : ValidationData :=
  {| series := ["SPX"; "NDX"]; row_count := 250;
     date_status := Some detected;
     date_range := Some ("2024-01-02", "2024-12-31");
     frequency := Some "daily" |}.

Definition two_series : ValidationResult :=
  {| valid := true; errors := []; warnings := []; data := Some spx_ndx |}.

(** A file was chosen and its validation is awaited. *)
Definition awaiting : Panel := handleFileSelect "prices.csv" initial.

(** The validation came back valid, with two series. *)
Definition validated : Panel :=
  run initial [SelectFile "prices.csv";
               ValidationEnds (ValidateResult two_series)].

End UploadSamples.

Module UploadInvariants.
Import Upload.

(** What every state of the panel satisfies: the deletion notice goes with
    a result; the file chosen was sent for validation; and an analysis was
    only ever requested with some weights, for a file sent for validation
    before. *)
Definition sound (st : Panel) : Prop :=
  (dataDeleted st = true → is_Some (htmlResult st)) ∧
  (∀ f, file st = Some f → PostValidate f ∈ sent st) ∧
  (∀ f w c m n, PostCustom f w c m n ∈ sent st →
                w ≠ ∅ ∧ PostValidate f ∈ sent st).

End UploadInvariants.

Module VisibleErrors.

(** An error cell is rendered when it is truthy: a message that is the
    empty string would not be shown. *)
Definition shown_if_set (e : option string) : Prop := e ≠ Some "".

Definition editor_errors_shown (st : Editor.App) : Prop :=
  shown_if_set (Editor.runError st) ∧
  ∀ r, r ∈ Editor.rows st → shown_if_set (Editor.error r).

End VisibleErrors.

(** * Properties of the data hooks *)

Module HooksFacts.
Import Hooks HooksSamples.



(** C2.  [markAsRead] lowers [unreadCount] whether or not the alert was
    unread.  With alert a1 read, alert a2 unread and [unreadCount = 1], a
    successful [markAsRead "a1"] changes no alert, leaves a2 unread, and
    still takes the counter from 1 to 0.  With a1 and a2 unread and
    [unreadCount = 2], two successful [markAsRead "a1"] in a row take the
    counter to 0 while a2 is still unread. *)
Theorem markAsRead_decrements_for_read_alert :
  let st := one_read_one_unread in
  let st' := (markAsRead "a1" succeeded st).2 in
  let twice :=
    (markAsRead "a1" succeeded (markAsRead "a1" succeeded two_unread).2).2 in
  (wasUnread "a1" (alerts st) = false ∧
   alerts st' = alerts st ∧
   unread_in (alerts st') = 1 ∧
   unreadCount st = 1 ∧
   unreadCount st' = 0) ∧
  (unread_in (alerts twice) = 1 ∧ unreadCount twice = 0).
Proof. vm_compute. repeat split; reflexivity. Qed.








End HooksFacts.

(** * Whole numbers as doubles

    Whole numbers below 2^53 are doubles, and they add without
    rounding as long as the sum stays below 2^53. *)

Module NumberFacts.
Import Number.

Lemma iter_pos_nat {A} (f : A → A) p x :
  iter_pos f p x = Nat.iter (Pos.to_nat p) f x.
Proof.
  revert x. induction p as [p IH|p IH|]; intros x; cbn [iter_pos].
  - rewrite !IH, Pos2Nat.inj_xI. rewrite <- Nat.iter_add.
    replace (S (2 * Pos.to_nat p))%nat
      with ((Pos.to_nat p + Pos.to_nat p) + 1)%nat by lia.
    by rewrite (Nat.iter_add (_ + _)).
  - rewrite !IH, Pos2Nat.inj_xO, <- Nat.iter_add. f_equal. lia.
  - done.
Qed.

Lemma Pos_iter_nat {A} (f : A → A) p x :
  Pos.iter f x p = Nat.iter (Pos.to_nat p) f x.
Proof. apply Pos2Nat.inj_iter. Qed.

Lemma shlp_add m a b : shlp (shlp m a) b = shlp m (a + b).
Proof. unfold shlp. rewrite Nat.add_comm. by rewrite Nat.iter_add. Qed.

Lemma digits_shlp m n :
  Zpos (digits2_pos (shlp m n)) = Zpos (digits2_pos m) + Z.of_nat n.
Proof.
  induction n as [|n IH]; [cbn; lia|].
  change (shlp m (S n)) with (xO (shlp m n)). cbn [digits2_pos]. lia.
Qed.

Lemma Zpos_shlp m n : Zpos (shlp m n) = Zpos m * 2 ^ Z.of_nat n.
Proof.
  induction n as [|n IH]; [cbn; lia|].
  change (shlp m (S n)) with (xO (shlp m n)).
  rewrite Pos2Z.inj_xO, IH, Nat2Z.inj_succ, Z.pow_succ_r by lia. lia.
Qed.

Lemma digits_lt c n : 0 ≤ n → Zpos c < 2 ^ n → Zpos (digits2_pos c) ≤ n.
Proof.
  revert n. induction c as [c IH|c IH|]; intros n Hn Hc; cbn [digits2_pos].
  - destruct (decide (n = 0)) as [->|]; [cbn in Hc; lia|].
    replace n with (Z.succ (n - 1)) in Hc by lia.
    rewrite Z.pow_succ_r in Hc by lia.
    specialize (IH (n - 1)). lia.
  - destruct (decide (n = 0)) as [->|]; [cbn in Hc; lia|].
    replace n with (Z.succ (n - 1)) in Hc by lia.
    rewrite Z.pow_succ_r in Hc by lia.
    specialize (IH (n - 1)). lia.
  - destruct (decide (n = 0)) as [->|]; [cbn in Hc; lia|]. lia.
Qed.

Lemma shr_shlp c n j :
  (j ≤ n)%nat →
  Nat.iter j shr_1 {| shr_m := Zpos (shlp c n); shr_r := false; shr_s := false |}
  = {| shr_m := Zpos (shlp c (n - j)); shr_r := false; shr_s := false |}.
Proof.
  induction j as [|j IH]; intros Hj.
  - by rewrite Nat.sub_0_r.
  - cbn [Nat.iter nat_rect]. change (nat_rect _ ?x (λ _, ?f) ?n) with (Nat.iter n f x).
    rewrite IH by lia.
    replace (n - j)%nat with (S (n - S j)) by lia. done.
Qed.

(** A mantissa of 53 bits is left as it is. *)
Lemma round_aux_canonical s M e :
  Zpos (digits2_pos M) = 53 → -1074 ≤ e ≤ 971 →
  binary_round_aux prec emax s (Zpos M) e loc_Exact = S754_finite s M e.
Proof.
  intros Hd He. unfold binary_round_aux, shr_fexp, fexp, emin, prec, emax.
  cbn [Zdigits2 shr_record_of_loc]. rewrite Hd.
  replace (Z.max (53 + e - 53) (3 - 1024 - 53) - e) with 0 by lia.
  cbn [shr shr_m loc_of_shr_record round_nearest_even Zdigits2 shr_record_of_loc].
  rewrite Hd.
  replace (Z.max (53 + e - 53) (3 - 1024 - 53) - e) with 0 by lia.
  cbn [shr shr_m].
  destruct (Z.leb_spec e (1024 - 53)); [done|lia].
Qed.

Lemma round_shlp s c n :
  Zpos (digits2_pos c) ≤ 53 →
  binary_round prec emax s (shlp c n) (- Z.of_nat n) = canonical s c.
Proof.
  intros Hd. set (d := Zpos (digits2_pos c)) in *.
  assert (Hd1 : 1 ≤ d) by (subst d; lia).
  unfold binary_round, canonical. fold d.
  rewrite digits_shlp. fold d.
  unfold fexp at 1, emin, prec, emax.
  replace (Z.max (d + Z.of_nat n + - Z.of_nat n - 53) (3 - 1024 - 53))
    with (d - 53) by lia.
  unfold shl_align.
  destruct (d - 53 - - Z.of_nat n) as [|t|t] eqn:Ht.
  - replace (Z.to_nat (53 - d)) with n by lia.
    replace (- Z.of_nat n) with (d - 53) by lia.
    apply round_aux_canonical; [|lia].
    rewrite digits_shlp. fold d. lia.
  - (* more than 53 bits: the low bits, all zero, are shifted out *)
    unfold binary_round_aux, shr_fexp.
    cbn [Zdigits2 shr_record_of_loc]. rewrite digits_shlp. fold d.
    unfold fexp at 1, emin, prec, emax.
    replace (Z.max (d + Z.of_nat n + - Z.of_nat n - 53) (3 - 1024 - 53)
             - - Z.of_nat n) with (Zpos t) by lia.
    cbn [shr]. rewrite iter_pos_nat, shr_shlp by lia.
    cbn [shr_m loc_of_shr_record round_nearest_even Zdigits2
         shr_record_of_loc].
    rewrite digits_shlp. fold d.
    unfold fexp, emin, prec, emax.
    replace (Z.max (d + Z.of_nat (n - Pos.to_nat t)
                    + (- Z.of_nat n + Zpos t) - 53) (3 - 1024 - 53)
             - (- Z.of_nat n + Zpos t)) with 0 by lia.
    cbn [shr shr_m].
    replace (n - Pos.to_nat t)%nat with (Z.to_nat (53 - d)) by lia.
    replace (- Z.of_nat n + Zpos t) with (d - 53) by lia.
    destruct (Z.leb_spec (d - 53) (1024 - 53)); [done|lia].
  - rewrite Pos_iter_nat. fold (shlp (shlp c n) (Pos.to_nat t)).
    rewrite shlp_add.
    replace (n + Pos.to_nat t)%nat with (Z.to_nat (53 - d)) by lia.
    apply round_aux_canonical; [|lia].
    rewrite digits_shlp. fold d. lia.
Qed.

Lemma of_Z_pos c :
  Zpos c < 2 ^ 53 → of_Z (Zpos c) = canonical false c.
Proof.
  intros Hc. apply (digits_lt c 53) in Hc; [|lia].
  exact (round_shlp false c 0 Hc).
Qed.

Lemma of_Z_neg c :
  Zpos c < 2 ^ 53 → of_Z (Zneg c) = canonical true c.
Proof.
  intros Hc. apply (digits_lt c 53) in Hc; [|lia].
  exact (round_shlp true c 0 Hc).
Qed.

Lemma of_Z_canonical z :
  Z.abs z < 2 ^ 53 →
  of_Z z = match z with
           | 0 => zero
           | Zpos c => canonical false c
           | Zneg c => canonical true c
           end.
Proof.
  destruct z as [|c|c]; intros Hz; [done|by apply of_Z_pos|by apply of_Z_neg].
Qed.

(** Scaling a whole number by a power of two and lowering the exponent by
    as much gives the same double. *)
Lemma normalize_shl z n :
  Z.abs z < 2 ^ 53 →
  binary_normalize prec emax (z * 2 ^ Z.of_nat n) (- Z.of_nat n) false
  = of_Z z.
Proof.
  intros Hz. rewrite (of_Z_canonical z Hz). destruct z as [|c|c].
  - done.
  - rewrite <- Zpos_shlp. cbn [binary_normalize].
    apply round_shlp, digits_lt; lia.
  - change (Zneg c) with (- Zpos c). rewrite Z.mul_opp_l, <- Zpos_shlp.
    cbn [Z.opp binary_normalize].
    apply round_shlp, digits_lt; lia.
Qed.

Lemma shl_align_canonical c e :
  Zpos (digits2_pos c) ≤ 53 → e ≤ Zpos (digits2_pos c) - 53 →
  fst (shl_align (shlp c (Z.to_nat (53 - Zpos (digits2_pos c))))
         (Zpos (digits2_pos c) - 53) e)
  = shlp c (Z.to_nat (- e)).
Proof.
  intros Hd He. unfold shl_align.
  destruct (e - (Zpos (digits2_pos c) - 53)) as [|t|t] eqn:Ht; cbn [fst].
  - f_equal. lia.
  - lia.
  - rewrite Pos_iter_nat.
    fold (shlp (shlp c (Z.to_nat (53 - Zpos (digits2_pos c)))) (Pos.to_nat t)).
    rewrite shlp_add. f_equal. lia.
Qed.

Lemma cond_Zopp_shlp s c n :
  cond_Zopp s (Zpos (shlp c n)) = cond_Zopp s (Zpos c) * 2 ^ Z.of_nat n.
Proof. rewrite Zpos_shlp. destruct s; cbn [cond_Zopp]; lia. Qed.

Lemma add_canonical sa a sb b :
  Zpos a < 2 ^ 53 → Zpos b < 2 ^ 53 →
  Z.abs (cond_Zopp sa (Zpos a) + cond_Zopp sb (Zpos b)) < 2 ^ 53 →
  add (canonical sa a) (canonical sb b)
  = of_Z (cond_Zopp sa (Zpos a) + cond_Zopp sb (Zpos b)).
Proof.
  intros Ha Hb Hab.
  apply (digits_lt a 53) in Ha; [|lia]. apply (digits_lt b 53) in Hb; [|lia].
  unfold add, canonical. cbn [SFadd].
  set (da := Zpos (digits2_pos a)) in *. set (db := Zpos (digits2_pos b)) in *.
  set (ez := Z.min (da - 53) (db - 53)).
  assert (Hda : 1 ≤ da) by (subst da; lia).
  assert (Hdb : 1 ≤ db) by (subst db; lia).
  subst da db.
  rewrite !shl_align_canonical by lia.
  rewrite !cond_Zopp_shlp, <- Z.mul_add_distr_r.
  assert (Hez : ez = - Z.of_nat (Z.to_nat (- ez))) by lia.
  rewrite Hez at 2. by apply normalize_shl.
Qed.

(** Whole numbers below 2^53 add without rounding. *)
Lemma add_of_Z a b :
  Z.abs a < 2 ^ 53 → Z.abs b < 2 ^ 53 → Z.abs (a + b) < 2 ^ 53 →
  add (of_Z a) (of_Z b) = of_Z (a + b).
Proof.
  intros Ha Hb Hab.
  destruct a as [|a|a].
  - rewrite Z.add_0_l, (of_Z_canonical b Hb). by destruct b.
  - destruct b as [|b|b].
    + rewrite Z.add_0_r, (of_Z_canonical _ Ha). done.
    + rewrite (of_Z_canonical _ Ha), (of_Z_canonical _ Hb).
      apply (add_canonical false a false b); cbn [cond_Zopp Z.opp]; lia.
    + rewrite (of_Z_canonical _ Ha), (of_Z_canonical _ Hb).
      apply (add_canonical false a true b); cbn [cond_Zopp Z.opp]; lia.
  - destruct b as [|b|b].
    + rewrite Z.add_0_r, (of_Z_canonical _ Ha). done.
    + rewrite (of_Z_canonical _ Ha), (of_Z_canonical _ Hb).
      apply (add_canonical true a false b); cbn [cond_Zopp Z.opp]; lia.
    + rewrite (of_Z_canonical _ Ha), (of_Z_canonical _ Hb).
      apply (add_canonical true a true b); cbn [cond_Zopp Z.opp]; lia.
Qed.

Lemma abs_of_Z z : Z.abs z < 2 ^ 53 → abs (of_Z z) = of_Z (Z.abs z).
Proof.
  intros Hz. rewrite (of_Z_canonical z Hz), (of_Z_canonical (Z.abs z)) by lia.
  by destruct z.
Qed.

Lemma or0_of_Z z : Z.abs z < 2 ^ 53 → or0 (of_Z z) = of_Z z.
Proof. intros Hz. rewrite (of_Z_canonical z Hz). by destruct z. Qed.

Lemma zero_ltb_of_Z z :
  Z.abs z < 2 ^ 53 → ltb zero (of_Z z) = bool_decide (0 < z).
Proof. intros Hz. rewrite (of_Z_canonical z Hz). by destruct z. Qed.

Lemma of_Z_ltb_zero z :
  Z.abs z < 2 ^ 53 → ltb (of_Z z) zero = bool_decide (z < 0).
Proof. intros Hz. rewrite (of_Z_canonical z Hz). by destruct z. Qed.

Lemma of_Z_eqb_zero z :
  Z.abs z < 2 ^ 53 → eqb (of_Z z) zero = bool_decide (z = 0).
Proof. intros Hz. rewrite (of_Z_canonical z Hz). by destruct z. Qed.

(** Whole numbers below 2^53 are doubles. *)
Lemma of_Z_valid z :
  Z.abs z < 2 ^ 53 → valid_binary prec emax (of_Z z) = true.
Proof.
  intros Hz. rewrite (of_Z_canonical z Hz).
  assert (Hc : ∀ s c, Zpos c < 2 ^ 53 →
                      valid_binary prec emax (canonical s c) = true).
  { intros s c Hc. apply (digits_lt c 53) in Hc; [|lia].
    unfold canonical, valid_binary, bounded, canonical_mantissa.
    rewrite digits_shlp. unfold fexp, emin, prec, emax.
    apply andb_true_iff. split; [apply Z.eqb_eq|apply Z.leb_le]; lia. }
  destruct z as [|c|c]; [done| |]; apply Hc; lia.
Qed.

End NumberFacts.

(** * Properties of the position editor *)

Module EditorFacts.
Import Editor EditorSamples.

Lemma or0_id n : or0 n = n.
Proof. unfold or0. by destruct (decide (n = 0)) as [->|]. Qed.

(** ** Exposures *)

Lemma sum_of_filter (P : Z → Prop) `{∀ z, Decision (P z)} f zs :
  sum_of f (filter P zs) = sum_of (λ z, if decide (P z) then f z else 0) zs.
Proof.
  induction zs as [|z zs IH]; [done|].
  rewrite filter_cons.
  destruct (decide (P z)) as [Hz|Hz]; cbn; destruct (decide (P z)); try done;
    fold (sum_of f (filter P zs)); rewrite IH; reflexivity.
Qed.

Lemma sum_of_abs_nonneg zs : 0 ≤ sum_of Z.abs zs.
Proof. induction zs as [|z zs IH]; cbn; [done|]. fold (sum_of Z.abs zs). lia. Qed.

(** A left-to-right sum of doubles over rows with whole amounts is the
    whole sum, as long as the absolute amounts add up to less than 2^53:
    no addition rounds. *)
Lemma fold_left_exact (g : Number.number → Number.number) (f : Z → Z)
    (l : list PositionRow) (zs : list Z) (acc : Z) :
  (∀ z, Z.abs z < 2 ^ 53 → g (Number.of_Z z) = Number.of_Z (f z)) →
  (∀ z, Z.abs (f z) ≤ Z.abs z) →
  whole_amounts l zs →
  Z.abs acc + sum_of Z.abs zs < 2 ^ 53 →
  fold_left (λ s r, Number.add s (g (amount r))) l (Number.of_Z acc)
  = Number.of_Z (acc + sum_of f zs).
Proof.
  intros Hg Hf. revert zs acc.
  induction l as [|r l IH]; intros [|z zs] acc Hl Hsum; try done.
  - cbn. by rewrite Z.add_0_r.
  - injection Hl as Hr Hl. cbn [fold_left sum_of foldr] in *.
    fold (sum_of Z.abs zs) in Hsum. fold (sum_of f zs).
    pose proof (sum_of_abs_nonneg zs). pose proof (Hf z).
    rewrite Hr, Hg by lia.
    rewrite NumberFacts.add_of_Z by lia.
    rewrite (IH zs (acc + f z)) by (done || lia).
    f_equal. lia.
Qed.

(** C7, as stated, fails for amounts whose sum does not fit the 53 bits of
    a double: the sums are rounded one addition at a time.  For the rows
    with amounts 2^53, 1 and 1, all three doubles as is their sum
    2^53 + 2, gross, net and long are 2^53; with the same rows in the
    opposite order gross is 2^53 + 2. *)
Lemma exposures_are_rounded :
  let big := 9007199254740992 in
  let l := [new_row "r1" (Number.of_Z big); new_row "r2" (Number.of_Z 1);
            new_row "r3" (Number.of_Z 1)] in
  big = 2 ^ 53 ∧
  whole_amounts l [big; 1; 1] ∧
  Forall (λ r, valid_binary Number.prec Number.emax (amount r) = true) l ∧
  sum_of Z.abs [big; 1; 1] = big + 2 ∧
  valid_binary Number.prec Number.emax (Number.of_Z (big + 2)) = true ∧
  gross l = Number.of_Z big ∧
  net l = Number.of_Z big ∧
  longExposure l = Number.of_Z big ∧
  gross l ≠ Number.of_Z (sum_of Z.abs [big; 1; 1]) ∧
  gross (reverse l) = Number.of_Z (big + 2).
Proof.
  repeat split; try (vm_compute; reflexivity).
  - repeat constructor.
  - vm_compute. discriminate.
Qed.

(** C7, amended.  The exposures are computed from the rows alone, by
    adding doubles.  When the amounts of the rows are whole numbers whose
    absolute values add up to less than 2^53, gross is the sum of the
    absolute amounts, net the sum of the amounts, long the sum of the
    positive amounts and short the sum of the absolute values of the
    negative ones.  With the two default rows resolved (to any two
    symbols) they are 2,000,000, 0, 1,000,000 and 1,000,000, and they
    still are once [runAnalysis] has sent its request and no response has
    come. *)
Theorem exposures_from_rows (l : list PositionRow) (zs : list Z)
    (uid1 uid2 a b : string) :
  whole_amounts l zs →
  sum_of Z.abs zs < 2 ^ 53 →
  (gross l = Number.of_Z (sum_of Z.abs zs) ∧
   net l = Number.of_Z (sum_of (λ z, z) zs) ∧
   longExposure l = Number.of_Z (sum_of (λ z, z) (filter (λ z, 0 < z) zs)) ∧
   shortExposure l = Number.of_Z (sum_of Z.abs (filter (λ z, z < 0) zs))) ∧
  let st :=
    setRows (λ prev, updateRow uid2 (patch_picked b)
                       (updateRow uid1 (patch_picked a) prev))
      (init uid1 uid2) in
  let sent := runAnalysis st in
  (gross (rows st), net (rows st), longExposure (rows st),
   shortExposure (rows st))
  = (Number.of_Z 2000000, Number.of_Z 0, Number.of_Z 1000000,
     Number.of_Z 1000000) ∧
  (gross (rows sent), net (rows sent), longExposure (rows sent),
   shortExposure (rows sent))
  = (Number.of_Z 2000000, Number.of_Z 0, Number.of_Z 1000000,
     Number.of_Z 1000000).
Proof.
  assert (Hsums : ∀ (l' : list PositionRow) zs',
    whole_amounts l' zs' → sum_of Z.abs zs' < 2 ^ 53 →
    gross l' = Number.of_Z (sum_of Z.abs zs') ∧
    net l' = Number.of_Z (sum_of (λ z, z) zs') ∧
    longExposure l'
    = Number.of_Z (sum_of (λ z, z) (filter (λ z, 0 < z) zs')) ∧
    shortExposure l'
    = Number.of_Z (sum_of Z.abs (filter (λ z, z < 0) zs'))).
  { intros l' zs' Hl Hsum. rewrite !sum_of_filter.
    split; [|split; [|split]].
    - apply (fold_left_exact (λ x, Number.abs (Number.or0 x)) Z.abs l' zs' 0);
        [|lia|done|lia].
      intros z Hz.
      by rewrite NumberFacts.or0_of_Z, NumberFacts.abs_of_Z.
    - apply (fold_left_exact Number.or0 (λ z, z) l' zs' 0); [|lia|done|lia].
      intros z Hz. by rewrite NumberFacts.or0_of_Z.
    - apply (fold_left_exact
               (λ x, if Number.ltb Number.zero (Number.or0 x)
                     then x else Number.zero)
               (λ z, if decide (0 < z) then z else 0) l' zs' 0);
        [| |done|lia].
      + intros z Hz.
        rewrite NumberFacts.or0_of_Z, NumberFacts.zero_ltb_of_Z by done.
        by destruct (decide (0 < z));
          [rewrite bool_decide_eq_true_2|rewrite bool_decide_eq_false_2].
      + intros z. destruct (decide (0 < z)); lia.
    - apply (fold_left_exact
               (λ x, if Number.ltb (Number.or0 x) Number.zero
                     then Number.abs x else Number.zero)
               (λ z, if decide (z < 0) then Z.abs z else 0) l' zs' 0);
        [| |done|lia].
      + intros z Hz.
        rewrite NumberFacts.or0_of_Z, NumberFacts.of_Z_ltb_zero by done.
        destruct (decide (z < 0));
          [rewrite bool_decide_eq_true_2|rewrite bool_decide_eq_false_2];
          try done.
        by apply NumberFacts.abs_of_Z.
      + intros z. destruct (decide (z < 0)); lia. }
  intros Hl Hsum. split; [by apply Hsums|].
  intros st sent.
  assert (Hrows : ∀ l' : list PositionRow,
    whole_amounts l' [1000000; -1000000] →
    (gross l', net l', longExposure l', shortExposure l')
    = (Number.of_Z 2000000, Number.of_Z 0, Number.of_Z 1000000,
       Number.of_Z 1000000)).
  { intros l' Hl'.
    destruct (Hsums l' [1000000; -1000000] Hl') as (-> & -> & -> & ->);
      [vm_compute; reflexivity|].
    reflexivity. }
  assert (Hst : whole_amounts (rows st) [1000000; -1000000]).
  { subst st. unfold whole_amounts. cbn -[Number.of_Z].
    repeat (destruct (decide _)); reflexivity. }
  split; [by apply Hrows|].
  apply Hrows. unfold whole_amounts. rewrite <- Hst. subst sent.
  unfold runAnalysis.
  destruct (decide _); [done|]. by destruct (find _ _).
Qed.

Lemma exposures_from_rows_witness :
  (gross (rows long_short), net (rows long_short),
   longExposure (rows long_short), shortExposure (rows long_short))
  = (Number.of_Z 2000000, Number.of_Z 0, Number.of_Z 1000000,
     Number.of_Z 1000000).
Proof.
  pose proof (exposures_from_rows (rows long_short) [1000000; -1000000]
                "r1" "r2" "AAPL" "MSFT" eq_refl eq_refl)
    as ((Hg & Hn & Hl & Hs) & _).
  rewrite Hg, Hn, Hl, Hs. reflexivity.
Defined.

(** ** Row management *)

Lemma ids_addRow uid l : ids (addRow uid l) = ids l ++ [uid].
Proof. unfold ids, addRow. by rewrite map_app. Qed.

Lemma ids_updateRow i patch l :
  p_id patch = None → ids (updateRow i patch l) = ids l.
Proof.
  intros Hp. unfold ids, updateRow. rewrite map_map. apply map_ext.
  intros r. destruct (decide (id r = i)); [|done]. cbn. by rewrite Hp.
Qed.

Lemma length_updateRow i patch l : length (updateRow i patch l) = length l.
Proof. unfold updateRow. apply length_map. Qed.

(** Rows with pairwise distinct ids: dropping the rows of one id drops the
    one row that has it. *)
Lemma filter_id_split i r (l : list PositionRow) :
  NoDup (ids l) → r ∈ l → id r = i →
  ∃ l1 l2, l = l1 ++ r :: l2 ∧ filter (λ r', id r' ≠ i) l = l1 ++ l2.
Proof.
  intros Hnd Hin Hi.
  apply list_elem_of_split in Hin as (l1 & l2 & ->).
  exists l1, l2. split; [done|].
  unfold ids in Hnd. rewrite map_app in Hnd. cbn in Hnd.
  apply NoDup_app in Hnd as (_ & Hdis & Hnd2).
  apply NoDup_cons in Hnd2 as [Hr2 _].
  assert (Hkeep : ∀ l' : list PositionRow,
            id r ∉ map id l' → filter (λ r', id r' ≠ i) l' = l').
  { induction l' as [|x l' IH]; intros Hx; [done|].
    cbn in Hx. apply not_elem_of_cons in Hx as [Hne Hx].
    rewrite filter_cons.
    destruct (decide (id x ≠ i)) as [_|Heq].
    - f_equal. by apply IH.
    - destruct Heq. congruence. }
  rewrite filter_app, filter_cons.
  destruct (decide (id r ≠ i)) as [Hne|_]; [done|].
  rewrite !Hkeep; [done|done|].
  intros Hin1. apply (Hdis (id r)); [done|]. apply list_elem_of_here.
Qed.

Lemma length_filter_id i (l : list PositionRow) :
  NoDup (ids l) → (length l ≤ S (length (filter (λ r, id r ≠ i) l)))%nat.
Proof.
  intros Hnd.
  destruct (decide (Exists (λ r, id r = i) l)) as [Hex|Hno].
  - apply Exists_exists in Hex as (r & Hin & Hi).
    destruct (filter_id_split i r l Hnd Hin Hi) as (l1 & l2 & -> & ->).
    rewrite !length_app. cbn. lia.
  - enough (filter (λ r, id r ≠ i) l = l) as -> by lia.
    clear Hnd. induction l as [|x l IH]; [done|].
    rewrite filter_cons. destruct (decide (id x ≠ i)) as [_|Heq].
    + f_equal. apply IH. intros Hex. apply Hno. by apply Exists_cons_tl.
    + destruct Hno. apply Exists_cons_hd.
      by destruct (decide (id x = i)).
Qed.

Lemma NoDup_ids_filter (P : PositionRow → Prop) `{∀ r, Decision (P r)} l :
  NoDup (ids l) → NoDup (ids (filter P l)).
Proof.
  intros Hnd. eapply sublist_NoDup; [exact Hnd|].
  apply (fmap_sublist id), sublist_filter.
Qed.

Lemma apply_op_two_distinct l op :
  two_distinct l → ids_kept l [op] → two_distinct (apply_op l op).
Proof.
  intros [Hlen Hnd] [Hop _]. destruct op as [uid|i|i patch]; cbn.
  - split.
    + unfold addRow. rewrite length_app. cbn. lia.
    + rewrite ids_addRow. apply NoDup_app. split; [done|]. split.
      * intros x Hx Hx'. apply list_elem_of_singleton in Hx'. by subst.
      * apply NoDup_singleton.
  - unfold removeRow. destruct (decide (length l ≤ 2)%nat); [done|].
    split.
    + pose proof (length_filter_id i l Hnd). lia.
    + by apply NoDup_ids_filter.
  - split.
    + by rewrite length_updateRow.
    + by rewrite ids_updateRow.
Qed.

Lemma apply_ops_two_distinct ops : ∀ l,
  two_distinct l → ids_kept l ops → two_distinct (apply_ops l ops).
Proof.
  induction ops as [|op ops IH]; intros l Hl Hops; [done|].
  destruct Hops as [Hop Hops]. cbn. apply IH; [|done].
  apply apply_op_two_distinct; [done|]. by split.
Qed.

(** C9, as stated, fails when [uid()] returns an id that a row already
    has: from the initial rows with ids a and b, [addRow] drawing the id a
    again gives three rows, and [removeRow] of a then drops both rows with
    that id and leaves a single row. *)
Lemma removeRow_shared_id_leaves_one_row :
  let added := apply_ops (initial_rows "a" "b") [AddRow "a"] in
  let removed := apply_ops (initial_rows "a" "b") [AddRow "a"; RemoveRow "a"] in
  ids added = ["a"; "b"; "a"] ∧
  removed = removeRow "a" added ∧
  removed = [new_row "b" (Number.of_Z (-1000000))] ∧
  length removed = 1%nat.
Proof. repeat split. Qed.

(** C9, amended.  [removeRow] returns the rows as they are when there are
    two or fewer; otherwise it drops the rows with the given id and keeps
    the others in order, which for rows with distinct ids is the one row
    that has the id.  From the two initial rows, any run of [addRow],
    [removeRow] and [updateRow] in which ids stay distinct ([uid()]
    returns fresh ids, no patch rewrites an id) leaves at least two
    rows. *)
Theorem removeRow_keeps_two_rows
    (l : list PositionRow) (i uid1 uid2 : string) (ops : list RowOp) :
  uid1 ≠ uid2 →
  ids_kept (initial_rows uid1 uid2) ops →
  ((length l ≤ 2)%nat → removeRow i l = l) ∧
  ((2 < length l)%nat →
     removeRow i l = filter (λ r, id r ≠ i) l ∧
     (∀ r, r ∈ removeRow i l ↔ r ∈ l ∧ id r ≠ i) ∧
     (NoDup (ids l) → ∀ r, r ∈ l → id r = i →
        ∃ l1 l2, l = l1 ++ r :: l2 ∧ removeRow i l = l1 ++ l2)) ∧
  (2 ≤ length (apply_ops (initial_rows uid1 uid2) ops))%nat.
Proof.
  intros Huid Hops. split; [|split].
  - intros Hlen. unfold removeRow. by destruct (decide _).
  - intros Hlen. unfold removeRow.
    destruct (decide (length l ≤ 2)%nat); [lia|].
    split; [done|]. split.
    + intros r. rewrite list_elem_of_filter. tauto.
    + intros Hnd r Hin Hi. by apply filter_id_split.
  - apply apply_ops_two_distinct; [|done]. split; [cbn; lia|].
    cbn. apply NoDup_cons. split; [|apply NoDup_singleton].
    intros Hin. apply list_elem_of_singleton in Hin. done.
Qed.

Lemma removeRow_keeps_two_rows_witness :
  removeRow "r2" three_rows = [new_row "r1" (Number.of_Z 1000000); new_row "r3" (Number.of_Z 0)] ∧
  (2 ≤ length (apply_ops (initial_rows "r1" "r2")
                 [AddRow "r3"; RemoveRow "r1"; RemoveRow "r2";
                  UpdateRow "r3" (patch_amount (Number.of_Z 5))]))%nat.
Proof.
  destruct (removeRow_keeps_two_rows three_rows "r2" "r1" "r2"
              [AddRow "r3"; RemoveRow "r1"; RemoveRow "r2";
               UpdateRow "r3" (patch_amount (Number.of_Z 5))])
    as (_ & Hrm & Hlen).
  - done.
  - cbn. repeat split; try done.
    intros Hin. apply elem_of_cons in Hin as [?|Hin]; [done|].
    apply list_elem_of_singleton in Hin. done.
  - split; [|exact Hlen].
    destruct Hrm as [Heq _]; [cbn; lia|]. rewrite Heq. reflexivity.
Defined.

(** ** Analysis submission *)

Lemma truthy_resolved r : truthy (resolvedSymbol r) = true ↔ resolved r.
Proof.
  unfold truthy, resolved. destruct (resolvedSymbol r) as [sym|].
  - rewrite bool_decide_eq_true. split.
    + intros Hs. by exists sym.
    + by intros (sym' & [= <-] & Hs).
  - split; [done|]. by intros (sym & ? & _).
Qed.

(** [Number(r.amount || 0) !== 0] holds of the numbers other than zero:
    not of [0], [-0] and [NaN]. *)
Lemma has_amount_spec r : has_amount r = true ↔ nonzero (amount r).
Proof.
  unfold has_amount, nonzero.
  destruct (amount r) as [[|]|[|]| |[|] m e]; cbn; intuition congruence.
Qed.

Lemma has_amount_eqb r :
  Number.eqb (Number.or0 (amount r)) Number.zero = negb (has_amount r).
Proof. unfold has_amount. by rewrite negb_involutive. Qed.

Lemma is_position_spec r :
  is_position r = true ↔ resolved r ∧ nonzero (amount r).
Proof.
  unfold is_position.
  by rewrite andb_true_iff, truthy_resolved, has_amount_spec.
Qed.

Lemma is_bad_spec r :
  is_bad r = true ↔ nonzero (amount r) ∧ ¬ resolved r.
Proof.
  unfold is_bad. rewrite andb_true_iff, negb_true_iff.
  rewrite has_amount_spec, <- truthy_resolved.
  by rewrite not_true_iff_false.
Qed.

Lemma no_position_spec l :
  length (map to_position (List.filter is_position l)) = 0%nat ↔ no_position l.
Proof.
  rewrite length_map. unfold no_position. split.
  - intros Hlen r Hin Hr. apply is_position_spec in Hr.
    apply length_zero_iff_nil in Hlen.
    assert (Hf : In r (List.filter is_position l)).
    { apply filter_In. split; [by apply list_elem_of_In|done]. }
    rewrite Hlen in Hf. destruct Hf.
  - intros Hno. destruct (List.filter is_position l) as [|r f] eqn:Hf; [done|].
    assert (Hr : In r (List.filter is_position l)) by (rewrite Hf; by left).
    apply filter_In in Hr as [Hin Hr]. apply is_position_spec in Hr.
    destruct (Hno r); [by apply list_elem_of_In|done].
Qed.

Lemma some_unresolved_spec l :
  find is_bad l = None ↔ ¬ some_unresolved l.
Proof.
  unfold some_unresolved. split.
  - intros Hf (r & Hin & Hr). apply is_bad_spec in Hr.
    apply list_elem_of_In in Hin.
    pose proof (find_none _ _ Hf r Hin) as Hn. congruence.
  - intros Hno. destruct (find is_bad l) as [r|] eqn:Hf; [|done].
    apply find_some in Hf as [Hin Hr]. destruct Hno. exists r.
    split; [by apply list_elem_of_In|by apply is_bad_spec].
Qed.

(** The positions submitted: symbol and amount of each row that has a
    resolved symbol and a nonzero amount. *)
Lemma currentPositions_spec l p :
  p ∈ currentPositions l ↔
  ∃ r sym, r ∈ l ∧ resolvedSymbol r = Some sym ∧ sym ≠ "" ∧
           nonzero (amount r) ∧
           p = {| Hooks.ticker := sym; Hooks.amount := amount r |}.
Proof.
  unfold currentPositions. rewrite list_elem_of_In, in_map_iff. split.
  - intros (r & <- & Hr). apply filter_In in Hr as [Hin Hr].
    apply is_position_spec in Hr as [(sym & Hs & Hne) Ha].
    exists r, sym. rewrite list_elem_of_In. repeat split; try done.
    unfold to_position. by rewrite Hs.
  - intros (r & sym & Hin & Hs & Hne & Ha & ->). exists r. split.
    + unfold to_position. by rewrite Hs.
    + apply filter_In. split; [by apply list_elem_of_In|].
      apply is_position_spec. split; [by exists sym|done].
Qed.

(** The request built by [runAnalysis] from the state. *)
Lemma runAnalysis_valid st :
  ¬ no_position (rows st) → ¬ some_unresolved (rows st) →
  runAnalysis st
  = setNet (abortRefs st) (controllers st) (inflight st)
      (requests st ++
       [PostAnalyze {| portfolio_name := portfolioName st;
                       analysis_period_days := period (days st);
                       include_ai_memo := includeAiMemo st;
                       positions := currentPositions (rows st) |}])
      (setRun true None "" false None st).
Proof.
  intros Hpos Hbad. unfold runAnalysis.
  destruct (decide _) as [Hlen|_].
  - by apply no_position_spec in Hlen.
  - apply some_unresolved_spec in Hbad. by rewrite Hbad.
Qed.

(** C4, as stated, fails where no row qualifies and some row has an amount
    but no symbol: for the single row with query AAPL, amount 100 and no
    resolved symbol, the message is the one for no positions, not the one
    for a missing ticker. *)
Lemma runAnalysis_unresolved_only :
  let st := with_rows [unresolved_row] in
  some_unresolved (rows st) ∧
  runError (runAnalysis st) = Some no_positions_message ∧
  runError (runAnalysis st) ≠ Some missing_ticker_message ∧
  requests (runAnalysis st) = requests st.
Proof.
  split; [|by vm_compute].
  exists unresolved_row. split; [apply list_elem_of_here|]. split; [done|].
  by intros (sym & Hs & _).
Qed.

(** C4, amended.  [runAnalysis] posts to [/analyze] exactly when some row
    has both a resolved symbol and a nonzero amount and no row has a
    nonzero amount without a resolved symbol.  When no row has both, it
    sets the message for no positions and sends nothing (also when some
    row has an amount but no symbol); when some row has both and some row
    has a nonzero amount but no symbol, it sets the message for a missing
    ticker and sends nothing; otherwise it sends the position list and sets
    no message. *)
Theorem runAnalysis_validation (st : App) :
  let st' := runAnalysis st in
  (no_position (rows st) ∧
   runError st' = Some no_positions_message ∧
   requests st' = requests st ∧ running st' = running st) ∨
  (¬ no_position (rows st) ∧ some_unresolved (rows st) ∧
   runError st' = Some missing_ticker_message ∧
   requests st' = requests st ∧ running st' = running st) ∨
  (¬ no_position (rows st) ∧ ¬ some_unresolved (rows st) ∧
   runError st' = None ∧ running st' = true ∧
   requests st'
   = requests st ++
     [PostAnalyze {| portfolio_name := portfolioName st;
                     analysis_period_days := period (days st);
                     include_ai_memo := includeAiMemo st;
                     positions := currentPositions (rows st) |}]).
Proof.
  intros st'.
  destruct (decide (length (map to_position (List.filter is_position (rows st)))
                    = 0%nat)) as [Hlen|Hlen].
  - left. split; [by apply no_position_spec|].
    subst st'. unfold runAnalysis. by destruct (decide _).
  - right. rewrite no_position_spec in Hlen.
    destruct (find is_bad (rows st)) as [bad|] eqn:Hbad.
    + left. split; [done|]. split.
      * pose proof (find_some _ _ Hbad) as [Hin Hb]. exists bad.
        split; [by apply list_elem_of_In|by apply is_bad_spec].
      * subst st'. unfold runAnalysis.
        destruct (decide _) as [E|_]; [by apply no_position_spec in E|].
        by rewrite Hbad.
    + right. apply some_unresolved_spec in Hbad.
      split; [done|]. split; [done|].
      subst st'. by rewrite runAnalysis_valid.
Qed.





(** ** Ticker resolution *)

Lemma elem_of_map {A B} (f : A → B) l y : y ∈ map f l ↔ ∃ x, y = f x ∧ x ∈ l.
Proof. exact (list_elem_of_fmap f l y). Qed.

Lemma lookup_map {A B} (f : A → B) l k : map f l !! k = f <$> (l !! k).
Proof. exact (list_lookup_fmap f l k). Qed.

Lemma updateRow_lookup i patch l k r :
  l !! k = Some r →
  updateRow i patch l !! k
  = Some (if decide (id r = i) then spread r patch else r).
Proof. intros Hk. unfold updateRow. by rewrite lookup_map, Hk. Qed.

Lemma rows_setRows f st : rows (setRows f st) = f (rows st).
Proof. reflexivity. Qed.

(** C3.  Emptying the query of a row and then leaving the input (or
    pressing Enter) leaves that row with an empty query, no resolved
    symbol, no candidates, no error and not loading, whatever the row held
    before; no request is sent and the pending requests and controllers
    are as before. *)
Theorem clearing_resets_row (st : App) (k : nat) (r : PositionRow) :
  rows st !! k = Some r →
  let st' := run st [ChangeQuery k ""; Blur k] in
  (∃ r', rows st' !! k = Some r' ∧
         id r' = id r ∧ amount r' = amount r ∧ query r' = "" ∧
         resolvedSymbol r' = None ∧ candidates r' = [] ∧
         error r' = None ∧ loading r' = false) ∧
  requests st' = requests st ∧
  inflight st' = inflight st ∧
  abortRefs st' = abortRefs st.
Proof.
  intros Hk st'.
  set (r1 := spread r (patch_typed "")).
  set (st1 := setRows (updateRow (id r) (patch_typed "")) st).
  assert (H1 : step st (ChangeQuery k "") = st1).
  { cbn. unfold on_row. by rewrite Hk. }
  assert (Hk1 : rows st1 !! k = Some r1).
  { subst st1 r1. cbn. rewrite (updateRow_lookup _ _ _ _ r) by done.
    by destruct (decide (id r = id r)). }
  assert (H2 : step st1 (Blur k)
               = setRows (updateRow (id r) patch_cleared) st1).
  { cbn [step]. unfold on_row. rewrite Hk1. subst r1. cbn.
    unfold resolveRow. cbn. by destruct (decide _). }
  subst st'. unfold run. cbn [fold_left]. rewrite H1, H2.
  split; [|done].
  exists (spread r1 patch_cleared). split; [|done].
  rewrite rows_setRows, (updateRow_lookup _ _ _ _ r1) by done.
  subst r1. cbn. by destruct (decide (id r = id r)).
Qed.

Lemma clearing_resets_row_witness :
  let st := with_rows [resolved_row "r1" "AAPL" 1000000;
                       {| id := "r2"; query := "zzzz"; resolvedSymbol := None;
                          amount := Number.of_Z 5; candidates := []; loading := true;
                          error := Some "Search failed" |}] in
  rows (run st [ChangeQuery 0 ""; Blur 0; ChangeQuery 1 ""; Blur 1])
  = [new_row "r1" (Number.of_Z 1000000); new_row "r2" (Number.of_Z 5)] ∧
  requests (run st [ChangeQuery 1 ""; Blur 1]) = [].
Proof.
  split; [reflexivity|].
  pose proof (clearing_resets_row
                (with_rows [resolved_row "r1" "AAPL" 1000000;
                            {| id := "r2"; query := "zzzz";
                               resolvedSymbol := None; amount := Number.of_Z 5;
                               candidates := []; loading := true;
                               error := Some "Search failed" |}])
                1 _ eq_refl) as (_ & Hreq & _).
  exact Hreq.
Defined.

Lemma filter_none {A} (P : A → Prop) `{∀ x, Decision (P x)} (l : list A) :
  (∀ x, x ∈ l → ¬ P x) → filter P l = [].
Proof.
  induction l as [|x l IH]; intros Hl; [done|].
  rewrite filter_cons. destruct (decide (P x)) as [Hx|_].
  - destruct (Hl x); [apply list_elem_of_here|done].
  - apply IH. intros y Hy. apply Hl. by apply list_elem_of_further.
Qed.

Lemma ctl_abort n pend : map ctl (abort n pend) = map ctl pend.
Proof.
  unfold abort. rewrite map_map. apply map_ext.
  intros p. by destruct (decide (ctl p = n)).
Qed.

Lemma elem_of_abort n pend p' :
  p' ∈ abort n pend →
  ∃ p, p ∈ pend ∧ ctl p' = ctl p ∧ row p' = row p ∧
       (aborted p' = false → p' = p ∧ ctl p ≠ n).
Proof.
  unfold abort. rewrite elem_of_map. intros (p & -> & Hp). exists p.
  destruct (decide (ctl p = n)); cbn; by repeat split.
Qed.

Lemma abort_elem_of n pend p :
  p ∈ pend →
  (if decide (ctl p = n)
   then {| ctl := ctl p; row := row p; aborted := true |} else p)
  ∈ abort n pend.
Proof. intros Hp. unfold abort. apply elem_of_map. by exists p. Qed.

Lemma find_ctl pend p :
  NoDup (map ctl pend) → p ∈ pend →
  find (λ p', bool_decide (ctl p' = ctl p)) pend = Some p.
Proof.
  induction pend as [|x pend IH]; intros Hnd Hp.
  - by apply elem_of_nil in Hp.
  - cbn in Hnd. apply NoDup_cons in Hnd as [Hx Hnd]. cbn.
    apply elem_of_cons in Hp as [->|Hp].
    + by rewrite bool_decide_eq_true_2.
    + rewrite bool_decide_eq_false_2; [by apply IH|].
      intros E. apply Hx. rewrite E. apply elem_of_map. by exists p.
Qed.

(** *** The bookkeeping stays consistent *)

Lemma consistent_init uid1 uid2 : consistent (init uid1 uid2).
Proof.
  split; [apply NoDup_nil_2|].
  split; intros p Hp; by apply elem_of_nil in Hp.
Qed.

(** Steps that touch neither the controllers nor the pending requests. *)
Lemma consistent_frame st st' :
  abortRefs st' = abortRefs st → controllers st' = controllers st →
  inflight st' = inflight st → consistent st → consistent st'.
Proof. unfold consistent. by intros -> -> ->. Qed.

Lemma resolveRow_consistent i q st :
  consistent st → consistent (resolveRow i q st).
Proof.
  intros (Hnd & Hlt & Href). unfold resolveRow.
  destruct (decide (trim q = "")) as [|Hq]; [done|].
  set (pend := match abortRefs st !! i with
               | Some n => abort n (inflight st)
               | None => inflight st
               end).
  assert (Hctl : map ctl pend = map ctl (inflight st)).
  { subst pend. destruct (abortRefs st !! i); [apply ctl_abort|done]. }
  assert (Hpend : ∀ p', p' ∈ pend →
            ∃ p, p ∈ inflight st ∧ ctl p' = ctl p ∧ row p' = row p ∧
                 (aborted p' = false → p' = p ∧ abortRefs st !! i ≠ Some (ctl p))).
  { subst pend. intros p' Hp'. destruct (abortRefs st !! i) as [n|].
    - apply elem_of_abort in Hp' as (p & Hp & Hc & Hr & Ha).
      exists p. repeat split; try done; destruct (Ha H) as [? ?]; congruence.
    - exists p'. by repeat split. }
  unfold consistent. cbn. split; [|split].
  - rewrite map_app, Hctl. cbn. apply NoDup_app. split; [done|].
    split; [|apply NoDup_singleton].
    intros c Hc Hc'. apply list_elem_of_singleton in Hc' as ->.
    apply elem_of_map in Hc as (p & Hc & Hp). apply Hlt in Hp. lia.
  - intros p' Hp'. apply elem_of_app in Hp' as [Hp'|Hp'].
    + apply Hpend in Hp' as (p & Hp & -> & _). apply Hlt in Hp. lia.
    + apply list_elem_of_singleton in Hp' as ->. cbn. lia.
  - intros p' Hp' Ha. apply elem_of_app in Hp' as [Hp'|Hp'].
    + apply Hpend in Hp' as (p & Hp & Hc & Hr & Hlive).
      destruct (Hlive Ha) as [-> Hne].
      pose proof (Href p Hp Ha) as Hp'.
      rewrite lookup_insert_ne; [done|]. intros E. by rewrite E in Hne.
    + apply list_elem_of_singleton in Hp' as ->. cbn.
      apply lookup_insert_eq.
Qed.

Lemma resolveRow_settled_net p o st :
  abortRefs (resolveRow_settled p o st) = abortRefs st ∧
  controllers (resolveRow_settled p o st) = controllers st ∧
  inflight (resolveRow_settled p o st) = inflight st ∧
  requests (resolveRow_settled p o st) = requests st.
Proof.
  unfold resolveRow_settled. destruct (aborted p); [done|].
  destruct o as [m| |m|auto_selected [|c cands]]; try done.
  by destruct auto_selected.
Qed.

Lemma settle_consistent n o st : consistent st → consistent (settle n o st).
Proof.
  intros Hst. unfold settle. destruct (find _ _) as [p|]; [|done].
  destruct (resolveRow_settled_net p o
              (setNet (abortRefs st) (controllers st)
                 (filter (λ p', ctl p' ≠ n) (inflight st)) (requests st) st))
    as (Hr & Hc & Hi & _).
  eapply consistent_frame; [exact Hr|exact Hc|exact Hi|].
  destruct Hst as (Hnd & Hlt & Href). unfold consistent. cbn.
  split; [|split].
  - eapply sublist_NoDup; [exact Hnd|].
    apply (fmap_sublist ctl), sublist_filter.
  - intros p' Hp'. apply list_elem_of_filter in Hp' as [_ Hp']. by apply Hlt.
  - intros p' Hp' Ha. apply list_elem_of_filter in Hp' as [_ Hp'].
    by apply Href.
Qed.

Lemma step_consistent st e : consistent st → consistent (step st e).
Proof.
  intros Hst.
  destruct e as [k val|k|k j|k v|uid|k|uid pf|n o| |o]; cbn [step];
    unfold on_row; try (destruct (rows st !! k) as [r|]; [|done]);
    try done.
  - by apply resolveRow_consistent.
  - destruct (candidates r !! j); [|done].
    by destruct (truthy (resolvedSymbol r)).
  - by apply settle_consistent.
  - destruct (_ || _); [done|]. unfold runAnalysis.
    destruct (decide _); [done|]. by destruct (find _ _).
  - destruct (running st); [|done]. unfold runAnalysis_settled.
    by destruct (analyze_result o).
Qed.

Lemma run_consistent es : ∀ st, consistent st → consistent (run st es).
Proof.
  induction es as [|e es IH]; intros st Hst; [done|].
  apply IH. by apply step_consistent.
Qed.

(** *** One outstanding request per row *)

Lemma resolveRow_sends i q st :
  trim q ≠ "" →
  ∃ pend,
    map ctl pend = map ctl (inflight st) ∧
    inflight (resolveRow i q st)
    = pend ++ [{| ctl := controllers st; row := i; aborted := false |}] ∧
    (∀ p, p ∈ inflight st →
       (if decide (abortRefs st !! i = Some (ctl p))
        then {| ctl := ctl p; row := row p; aborted := true |} else p) ∈ pend) ∧
    (∀ p', p' ∈ pend → aborted p' = false →
       p' ∈ inflight st ∧ abortRefs st !! i ≠ Some (ctl p')) ∧
    controllers (resolveRow i q st) = S (controllers st) ∧
    requests (resolveRow i q st) = requests st ++ [GetResolve (trim q)].
Proof.
  intros Hq. unfold resolveRow. destruct (decide (trim q = "")); [done|].
  cbn. eexists. split; [|split; [reflexivity|]].
  - destruct (abortRefs st !! i); [apply ctl_abort|done].
  - split; [|split; [|done]].
    + intros p Hp. destruct (abortRefs st !! i) as [c|].
      * pose proof (abort_elem_of c _ _ Hp) as Hin.
        destruct (decide (ctl p = c)) as [<-|Hne].
        -- by rewrite decide_True.
        -- rewrite decide_False; [done|congruence].
      * by rewrite decide_False.
    + intros p' Hp' Ha. destruct (abortRefs st !! i) as [c|]; [|done].
      apply elem_of_abort in Hp' as (p & Hp & _ & _ & Hlive).
      destruct (Hlive Ha) as [-> Hne]. split; [done|congruence].
Qed.



Section InConsistentState.

Context (st : App) (Hst : consistent st).

Lemma outstanding_at_most_one j : (length (outstanding j st) ≤ 1)%nat.
Proof.
  destruct Hst as (Hnd & _ & Href). unfold outstanding.
  set (P := λ p, row p = j ∧ aborted p = false).
  assert (Hsame : ∀ p, p ∈ filter P (inflight st) →
                       abortRefs st !! j = Some (ctl p)).
  { intros p Hp. apply list_elem_of_filter in Hp as [[<- Ha] Hp].
    by apply Href. }
  assert (Hnd' : NoDup (map ctl (filter P (inflight st)))).
  { eapply sublist_NoDup; [exact Hnd|].
    apply (fmap_sublist ctl), sublist_filter. }
  destruct (filter P (inflight st)) as [|a [|b l]]; cbn; [lia|lia|].
  pose proof (Hsame a (list_elem_of_here _ _)) as Ea.
  pose proof (Hsame b (list_elem_of_further _ _ _ (list_elem_of_here _ _))) as Eb.
  cbn in Hnd'. apply NoDup_cons in Hnd' as [Hab _].
  destruct Hab. rewrite Ea in Eb. injection Eb as ->. apply list_elem_of_here.
Qed.

Lemma resolveRow_outstanding i q :
  trim q ≠ "" →
  outstanding i (resolveRow i q st)
  = [{| ctl := controllers st; row := i; aborted := false |}].
Proof.
  intros Hq. destruct Hst as (_ & _ & Href).
  destruct (resolveRow_sends i q st Hq) as (pend & _ & Hin & _ & Hlive & _).
  unfold outstanding. rewrite Hin, filter_app.
  rewrite (filter_none _ pend).
  - rewrite filter_cons, decide_True by done. done.
  - intros p' Hp' [Hrow Ha]. destruct (Hlive p' Hp' Ha) as [Hp Hne].
    apply Hne. rewrite <- Hrow. by apply Href.
Qed.


(** Settling the request of a pending [p] runs the rest of its
    [resolveRow]. *)
Lemma settle_found p o :
  p ∈ inflight st →
  settle (ctl p) o st
  = resolveRow_settled p o
      (setNet (abortRefs st) (controllers st)
         (filter (λ p', ctl p' ≠ ctl p) (inflight st)) (requests st) st).
Proof.
  intros Hp. destruct Hst as (Hnd & _). unfold settle.
  by rewrite (find_ctl _ p).
Qed.



End InConsistentState.





End EditorFacts.

(** * Further properties of the data hooks *)

Module HooksMore.
Import Hooks HooksSamples MoreSamples Fetchers.

(** ** Lists keyed by an id *)

Section Keyed.

Context {A : Type} (key : A → string).

Lemma filter_other_key i (l : list A) :
  i ∉ key <$> l → filter (λ x, key x ≠ i) l = l.
Proof.
  induction l as [|x l IH]; intros Hi; [done|].
  rewrite fmap_cons in Hi. apply not_elem_of_cons in Hi as [Hne Hi].
  rewrite filter_cons. destruct (decide (key x ≠ i)) as [_|Heq].
  - f_equal. by apply IH.
  - by destruct Heq.
Qed.

(** With distinct keys, dropping the elements of one key drops the one
    element that has it. *)
Lemma filter_key_split i a (l : list A) :
  NoDup (key <$> l) → a ∈ l → key a = i →
  ∃ l1 l2, l = l1 ++ a :: l2 ∧ (i ∉ key <$> l1) ∧ (i ∉ key <$> l2) ∧
           filter (λ x, key x ≠ i) l = l1 ++ l2.
Proof.
  intros Hnd Hin <-.
  apply list_elem_of_split in Hin as (l1 & l2 & ->).
  rewrite fmap_app, fmap_cons in Hnd.
  apply NoDup_app in Hnd as (_ & Hdis & Hnd2).
  apply NoDup_cons in Hnd2 as [H2 _].
  assert (H1 : key a ∉ key <$> l1).
  { intros Hin1. apply (Hdis _ Hin1). apply list_elem_of_here. }
  exists l1, l2. repeat split; try done.
  rewrite filter_app, filter_cons, !filter_other_key by done.
  by destruct (decide (key a ≠ key a)).
Qed.

Lemma find_key_Some i a (l : list A) :
  find (λ x, bool_decide (key x = i)) l = Some a → a ∈ l ∧ key a = i.
Proof.
  intros Hf. apply find_some in Hf as [Hin Hk].
  split; [by apply list_elem_of_In|by apply bool_decide_eq_true in Hk].
Qed.

Lemma find_key_None i (l : list A) :
  find (λ x, bool_decide (key x = i)) l = None → i ∉ key <$> l.
Proof.
  intros Hf Hin. apply list_elem_of_fmap in Hin as (a & -> & Hin).
  apply list_elem_of_In in Hin.
  pose proof (find_none _ _ Hf a Hin) as Hk. cbn in Hk.
  by apply bool_decide_eq_false in Hk.
Qed.

End Keyed.

(** ** Save and delete undo each other *)



(** ** The counters and the lists *)

Lemma unread_in_app l1 l2 : unread_in (l1 ++ l2) = unread_in l1 + unread_in l2.
Proof. unfold unread_in. rewrite filter_app, length_app. lia. Qed.

Lemma unread_in_cons a l :
  unread_in (a :: l) = (if al_is_read a then 0 else 1) + unread_in l.
Proof.
  unfold unread_in. rewrite filter_cons.
  destruct (decide (al_is_read a = false)) as [->|Hr]; cbn -[Z.of_nat].
  - lia.
  - destruct (al_is_read a); [lia|done].
Qed.

Lemma unread_in_nonneg l : 0 ≤ unread_in l.
Proof. unfold unread_in. lia. Qed.

(** X2.  When [total] equals the number of analyses listed and their ids
    are distinct, it still does after a [saveAnalysis] that returns an
    analysis with a new id, and after a [deleteAnalysis] of an analysis
    that is in the list, whatever the responses. *)
Theorem total_counts_analyses
    (a : AnalysisSummary) (id : string) (st : AnalysesState)
    (ra : Response AnalysisSummary) (rd : Response unit) :
  counted st → NoDup (an_id <$> analyses st) →
  (∀ a', entity ra = inr a' → an_id a' ∉ an_id <$> analyses st) →
  a ∈ analyses st → an_id a = id →
  let saved := (saveAnalysis ra st).2 in
  let deleted := (deleteAnalysis id rd st).2 in
  (counted saved ∧ NoDup (an_id <$> analyses saved)) ∧
  (counted deleted ∧ NoDup (an_id <$> analyses deleted)).
Proof.
  intros Hc Hnd Hnew Hin Hid saved deleted. unfold counted in *. split.
  - subst saved. unfold saveAnalysis.
    destruct (ok ra); cbn; [|done].
    destruct (entity ra) as [m|a'] eqn:He; cbn; [done|].
    split; [lia|]. apply NoDup_cons. split; [by apply Hnew|done].
  - subst deleted. unfold deleteAnalysis.
    destruct (ok rd); cbn -[filter]; [|done].
    destruct (filter_key_split an_id id a _ Hnd Hin Hid)
      as (l1 & l2 & Hl & _ & _ & ->).
    rewrite Hl in Hc, Hnd. rewrite Hc, !length_app. cbn. split; [lia|].
    rewrite fmap_app, fmap_cons in Hnd. rewrite fmap_app.
    apply NoDup_app in Hnd as (H1 & Hdis & H2).
    apply NoDup_cons in H2 as [_ H2].
    apply NoDup_app. repeat split; try done.
    intros x Hx Hx'. apply (Hdis x Hx). by apply list_elem_of_further.
Qed.

Lemma total_counts_analyses_witness :
  counted (saveAnalysis (returned (sample_analysis "z")) two_analyses).2 ∧
  counted (deleteAnalysis "y" succeeded two_analyses).2.
Proof.
  assert (Hnd : NoDup (an_id <$> analyses two_analyses)).
  { cbn. apply NoDup_cons. split; [|apply NoDup_singleton].
    rewrite list_elem_of_singleton. done. }
  assert (Hnew : ∀ a', entity (returned (sample_analysis "z")) = inr a' →
                       an_id a' ∉ an_id <$> analyses two_analyses).
  { intros a' [= <-]. cbn. rewrite !not_elem_of_cons.
    repeat split; try done. apply not_elem_of_nil. }
  assert (Hin : sample_analysis "y" ∈ analyses two_analyses).
  { cbn. apply list_elem_of_further, list_elem_of_here. }
  pose proof (total_counts_analyses (sample_analysis "y") "y" two_analyses
                (returned (sample_analysis "z")) succeeded eq_refl Hnd Hnew
                Hin eq_refl) as [[H1 _] [H2 _]].
  by split.
Defined.

Lemma mark_other i (l : list Alert) :
  i ∉ al_id <$> l →
  map (λ a, if decide (al_id a = i) then read a else a) l = l.
Proof.
  induction l as [|x l IH]; intros Hi; [done|].
  rewrite fmap_cons in Hi. apply not_elem_of_cons in Hi as [Hne Hi]. cbn.
  destruct (decide (al_id x = i)) as [Heq|_]; [by destruct Hne|].
  f_equal. by apply IH.
Qed.

Lemma ids_distinct_filter (P : Alert → Prop) `{∀ a, Decision (P a)} l :
  NoDup (al_id <$> l) → NoDup (al_id <$> filter P l).
Proof.
  intros Hnd. eapply sublist_NoDup; [exact Hnd|].
  apply (fmap_sublist al_id), sublist_filter.
Qed.

(** X3.  [deleteAlert] decides whether to lower the counter from the
    alerts of the render it was called from.  When [unreadCount] equals
    the number of unread alerts listed, the alert ids are distinct, and
    the alert is read or unread in the list at the time of the response as
    it was in the list the call captured, they are still equal after
    [deleteAlert], whatever the id and the response: the counter is lowered
    exactly when the alert removed was unread. *)
Theorem deleteAlert_keeps_count (captured : list Alert) (id : string)
    (res : Response unit) (st : AlertsState) :
  in_sync st → NoDup (al_id <$> alerts st) →
  wasUnread id captured = wasUnread id (alerts st) →
  let st' := (deleteAlert captured id res st).2 in
  in_sync st' ∧ NoDup (al_id <$> alerts st') ∧
  (ok res = true → id ∉ al_id <$> alerts st').
Proof.
  intros Hs Hnd Hcap st'. subst st'. unfold in_sync in *. unfold deleteAlert.
  rewrite Hcap.
  destruct (ok res); cbn -[filter]; [|done].
  assert (Hgone : id ∉ al_id <$> filter (λ a, al_id a ≠ id) (alerts st)).
  { intros Hin. apply list_elem_of_fmap in Hin as (a & -> & Ha).
    apply list_elem_of_filter in Ha as [Ha _]. done. }
  unfold wasUnread.
  destruct (find _ (alerts st)) as [a|] eqn:Hf.
  - apply find_key_Some in Hf as [Hin Hid].
    destruct (filter_key_split al_id id a _ Hnd Hin Hid)
      as (l1 & l2 & Hl & _ & _ & Hfl).
    assert (Hnd' : NoDup (al_id <$> filter (λ a, al_id a ≠ id) (alerts st)))
      by (by apply ids_distinct_filter).
    rewrite Hl, unread_in_app, unread_in_cons in Hs.
    pose proof (unread_in_nonneg l1). pose proof (unread_in_nonneg l2).
    destruct (al_is_read a); cbn -[filter].
    + split; [|by split]. rewrite Hfl, unread_in_app. lia.
    + split; [|by split]. rewrite Hfl, unread_in_app. lia.
  - apply find_key_None in Hf.
    cbn -[filter]. rewrite (filter_other_key al_id) by done.
    by repeat split.
Qed.

Lemma deleteAlert_keeps_count_witness :
  let st := one_read_one_unread in
  (deleteAlert (alerts st) "a2" succeeded st).2
  = {| alerts := [sample_alert "a1" true]; unreadCount := 0;
       al_loading := false; al_error := None |} ∧
  in_sync (deleteAlert (alerts st) "a2" succeeded st).2.
Proof.
  intros st. split; [reflexivity|].
  assert (Hnd : NoDup (al_id <$> alerts st)).
  { cbn. apply NoDup_cons. split; [|apply NoDup_singleton].
    rewrite list_elem_of_singleton. done. }
  by pose proof (deleteAlert_keeps_count (alerts st) "a2" succeeded st
                   eq_refl Hnd eq_refl) as [H _].
Defined.

(** X4.  When [unreadCount] equals the number of unread alerts listed and
    the alert ids are distinct, [markAsRead] of an alert that is in the
    list and unread keeps them equal, whatever the response: on success
    that alert alone becomes read and the counter drops by one. *)
Theorem markAsRead_unread_keeps_count (id : string) (a : Alert)
    (res : Response unit) (st : AlertsState) :
  in_sync st → NoDup (al_id <$> alerts st) →
  a ∈ alerts st → al_id a = id → al_is_read a = false →
  let st' := (markAsRead id res st).2 in
  in_sync st' ∧
  (ok res = true →
   unreadCount st' = unreadCount st - 1 ∧
   ∃ l1 l2, alerts st = l1 ++ a :: l2 ∧ alerts st' = l1 ++ read a :: l2).
Proof.
  intros Hs Hnd Hin Hid Hr st'. subst st'. unfold in_sync in *.
  unfold markAsRead. destruct (ok res); cbn; [|done].
  destruct (filter_key_split al_id id a _ Hnd Hin Hid)
    as (l1 & l2 & Hl & H1 & H2 & _).
  assert (Hmap : map (λ x, if decide (al_id x = id) then read x else x)
                   (alerts st) = l1 ++ read a :: l2).
  { rewrite Hl, map_app. cbn. rewrite !mark_other by done.
    by destruct (decide (al_id a = id)). }
  rewrite Hmap. rewrite Hl, unread_in_app, unread_in_cons, Hr in Hs.
  rewrite unread_in_app, unread_in_cons. cbn [read al_is_read].
  pose proof (unread_in_nonneg l1). pose proof (unread_in_nonneg l2).
  split; [lia|]. intros _. split; [lia|]. by exists l1, l2.
Qed.

Lemma markAsRead_unread_keeps_count_witness :
  (markAsRead "a2" succeeded one_read_one_unread).2
  = {| alerts := [sample_alert "a1" true; sample_alert "a2" true];
       unreadCount := 0; al_loading := false; al_error := None |} ∧
  in_sync (markAsRead "a2" succeeded one_read_one_unread).2.
Proof.
  split; [reflexivity|].
  assert (Hnd : NoDup (al_id <$> alerts one_read_one_unread)).
  { cbn. apply NoDup_cons. split; [|apply NoDup_singleton].
    rewrite list_elem_of_singleton. done. }
  assert (Hin : sample_alert "a2" false ∈ alerts one_read_one_unread).
  { cbn. apply list_elem_of_further, list_elem_of_here. }
  by pose proof (markAsRead_unread_keeps_count "a2" (sample_alert "a2" false)
                   succeeded one_read_one_unread eq_refl Hnd Hin eq_refl
                   eq_refl) as [H _].
Defined.

Lemma wasUnread_split id a l1 l2 :
  (id ∉ al_id <$> l1) → al_id a = id →
  wasUnread id (l1 ++ a :: l2) = negb (al_is_read a).
Proof.
  intros H1 Ha. unfold wasUnread.
  induction l1 as [|x l1 IH]; cbn.
  - by rewrite bool_decide_eq_true_2.
  - rewrite fmap_cons in H1. apply not_elem_of_cons in H1 as [Hne H1].
    rewrite bool_decide_eq_false_2 by done. by apply IH.
Qed.

(** X24.  [deleteAlert] takes the read state of the alert from the render
    it was called from.  When it is called for an unread alert and a
    [markAsRead] of the same alert succeeds before the response to the
    deletion arrives, the counter is lowered for that alert twice: from a
    state in which [unreadCount] counts the unread alerts listed (with
    distinct ids) it ends two lower (not below 0) while the number of
    unread alerts listed is one lower, so that with two or more unread
    alerts before, the counter no longer counts them. *)
Theorem deleteAlert_counts_stale_read_state (id : string) (a : Alert)
    (marked deleted : Response unit) (st : AlertsState) :
  in_sync st → NoDup (al_id <$> alerts st) →
  a ∈ alerts st → al_id a = id → al_is_read a = false →
  ok marked = true → ok deleted = true →
  let captured := alerts st in
  let st' := (deleteAlert captured id deleted (markAsRead id marked st).2).2 in
  unreadCount st' = Z.max 0 (unreadCount st - 2) ∧
  unread_in (alerts st') = unreadCount st - 1 ∧
  (2 ≤ unreadCount st → ¬ in_sync st').
Proof.
  intros Hs Hnd Hin Hid Hr Hm Hd captured st'. unfold in_sync in *.
  destruct (filter_key_split al_id id a _ Hnd Hin Hid)
    as (l1 & l2 & Hl & H1 & H2 & Hf).
  assert (Hcount : unreadCount st' = Z.max 0 (unreadCount st - 2)).
  { subst st' captured. unfold deleteAlert, markAsRead. rewrite Hm, Hd.
    rewrite Hl at 1. rewrite (wasUnread_split id a l1 l2 H1 Hid), Hr.
    cbn -[filter]. lia. }
  assert (Hlist : alerts st' = l1 ++ l2).
  { subst st' captured. unfold deleteAlert, markAsRead. rewrite Hm, Hd.
    rewrite Hl at 1. rewrite (wasUnread_split id a l1 l2 H1 Hid), Hr.
    cbn -[filter]. rewrite Hl at 1. rewrite map_app. cbn -[filter].
    rewrite !mark_other by done.
    rewrite filter_app, filter_cons, !(filter_other_key al_id) by done.
    destruct (decide (al_id a = id)) as [_|Hne]; [|done].
    cbn [read al_id]. by rewrite decide_False by (intros Hne; by apply Hne). }
  rewrite Hl, unread_in_app, unread_in_cons, Hr in Hs.
  rewrite Hcount, Hlist, unread_in_app.
  pose proof (unread_in_nonneg l1). pose proof (unread_in_nonneg l2).
  repeat split; lia.
Qed.

Lemma deleteAlert_counts_stale_read_state_witness :
  let st := two_unread in
  let st' :=
    (deleteAlert (alerts st) "a1" succeeded
       (markAsRead "a1" succeeded st).2).2 in
  alerts st' = [sample_alert "a2" false] ∧ unreadCount st' = 0 ∧
  ¬ in_sync st'.
Proof.
  intros st st'.
  assert (Hnd : NoDup (al_id <$> alerts st)).
  { cbn. apply NoDup_cons. split; [|apply NoDup_singleton].
    rewrite list_elem_of_singleton. done. }
  assert (Hin : sample_alert "a1" false ∈ alerts st).
  { cbn. apply list_elem_of_here. }
  pose proof (deleteAlert_counts_stale_read_state "a1"
                (sample_alert "a1" false) succeeded succeeded st
                eq_refl Hnd Hin eq_refl eq_refl eq_refl eq_refl)
    as (Hc & _ & Hno).
  split; [reflexivity|]. split; [exact Hc|]. apply Hno. cbn. lia.
Defined.

Lemma unread_in_read l : unread_in (map read l) = 0.
Proof.
  induction l as [|a l IH]; [done|].
  change (map read (a :: l)) with (read a :: map read l).
  rewrite unread_in_cons, IH. reflexivity.
Qed.

(** X5.  A successful [markAllAsRead] leaves every alert read and
    [unreadCount] equal to the number of unread alerts listed, zero,
    whatever the counter and the list were before; it keeps the alerts'
    ids and order. *)
Theorem markAllAsRead_resets (res : Response unit) (st : AlertsState) :
  ok res = true →
  let st' := (markAllAsRead res st).2 in
  in_sync st' ∧ unreadCount st' = 0 ∧
  (∀ a, a ∈ alerts st' → al_is_read a = true) ∧
  al_id <$> alerts st' = al_id <$> alerts st.
Proof.
  intros Hok st'. subst st'. unfold markAllAsRead, in_sync. rewrite Hok. cbn.
  rewrite unread_in_read. repeat split.
  - intros a Ha. apply (list_elem_of_fmap read) in Ha as (a' & -> & _). done.
  - change (map read (alerts st)) with (read <$> alerts st).
    rewrite <- list_fmap_compose. by apply list_fmap_ext.
Qed.

Lemma markAllAsRead_resets_witness :
  in_sync (markAllAsRead succeeded
             {| alerts := [sample_alert "a1" false; sample_alert "a2" false];
                unreadCount := 7; al_loading := false; al_error := None |}).2.
Proof.
  by pose proof (markAllAsRead_resets succeeded
                   {| alerts := [sample_alert "a1" false;
                                 sample_alert "a2" false];
                      unreadCount := 7; al_loading := false;
                      al_error := None |} eq_refl) as [H _].
Defined.

(** ** The fetchers *)

Lemma fetched_inr {A} failure (o : Fetched A) d :
  fetched failure o = inr d ↔ o = Responds true (Json d).
Proof.
  unfold fetched. split.
  - destruct o as [e|[|] [e|m|d']]; cbn; congruence.
  - by intros ->.
Qed.

(** The cases of a fetcher's outcome, once the outcome is known. *)
Ltac fetch_cases :=
  repeat match goal with
    | |- _ ∧ _ => split
    | |- _ ↔ _ => split
    | |- _ → _ => intros ?
    | |- ∀ _, _ => intros ?
    | H : ∃ _, _ |- _ => destruct H as [? ?]
    | H : Responds _ _ = Responds _ _ |- _ => injection H as ?; subst
    | H : Rejects _ = Responds _ _ |- _ => discriminate H
    | H : Some _ = None |- _ => discriminate H
    | H : ?x ≠ ?x |- _ => by destruct H
    | H : inl _ = inr _ |- _ => discriminate H
    | H : false = true |- _ => discriminate H
    | |- ∃ _, Responds _ _ = Responds _ _ => by eexists
    end;
  rewrite ?EditorFacts.or0_id; try done.

(** X6.  A fetcher ends with [loading] false whatever happened.  Its error
    is cleared exactly when the response is a success whose body is JSON
    other than [null], and then the list and counter are those of the body
    alone (an empty list and 0 for missing fields); in every other case
    (rejection, non-success status, unreadable body, body [null]) the list
    and counter stay as they were and the error is set; for the body
    [null] it is the message of the [TypeError]. *)
Theorem fetch_keeps_items_on_failure
    (oa : Fetched AlertsData) (sa : AlertsState)
    (on : Fetched AnalysesData) (sn : AnalysesState)
    (op : Fetched PortfoliosData) (sp : PortfoliosState) :
  let sa' := fetchAlerts oa (fetchAlerts_start sa) in
  let sn' := fetchAnalyses on (fetchAnalyses_start sn) in
  let sp' := fetchPortfolios op (fetchPortfolios_start sp) in
  (al_loading sa' = false ∧
   (al_error sa' = None ↔ ∃ d, oa = Responds true (Json d)) ∧
   (∀ d, oa = Responds true (Json d) →
      alerts sa' = default [] (d_alerts d) ∧
      unreadCount sa' = default 0 (d_unread_count d)) ∧
   (al_error sa' ≠ None →
      alerts sa' = alerts sa ∧ unreadCount sa' = unreadCount sa) ∧
   (∀ m, oa = Responds true (JsonNull m) → al_error sa' = Some m)) ∧
  (an_loading sn' = false ∧
   (an_error sn' = None ↔ ∃ d, on = Responds true (Json d)) ∧
   (∀ d, on = Responds true (Json d) →
      analyses sn' = default [] (d_analyses d) ∧
      total sn' = default 0 (d_total d)) ∧
   (an_error sn' ≠ None →
      analyses sn' = analyses sn ∧ total sn' = total sn) ∧
   (∀ m, on = Responds true (JsonNull m) → an_error sn' = Some m)) ∧
  (pf_loading sp' = false ∧
   (pf_error sp' = None ↔ ∃ d, op = Responds true (Json d)) ∧
   (∀ d, op = Responds true (Json d) →
      portfolios sp' = default [] (d_portfolios d)) ∧
   (pf_error sp' ≠ None → portfolios sp' = portfolios sp) ∧
   (∀ m, op = Responds true (JsonNull m) → pf_error sp' = Some m)).
Proof.
  intros sa' sn' sp'. subst sa' sn' sp'.
  unfold fetchAlerts, fetchAnalyses, fetchPortfolios.
  split; [|split].
  - destruct oa as [e|[|] [e|m|d]]; cbn; fetch_cases.
  - destruct on as [e|[|] [e|m|d]]; cbn; fetch_cases.
  - destruct op as [e|[|] [e|m|d]]; cbn; fetch_cases.
Qed.

End HooksMore.

(** * Further properties of the position editor *)

Module EditorMore.
Import Editor EditorSamples EditorInvariants EditorMoreSamples EditorFacts.

(** ** Responses that arrive late *)

Lemma updateRow_absent i patch (l : list PositionRow) :
  i ∉ ids l → updateRow i patch l = l.
Proof.
  unfold ids, updateRow. induction l as [|r l IH]; intros Hi; [done|].
  cbn in Hi. apply not_elem_of_cons in Hi as [Hne Hi]. cbn.
  destruct (decide (id r = i)) as [Heq|_]; [by destruct Hne|].
  f_equal. by apply IH.
Qed.

Lemma rows_resolveRow_settled_absent p o st :
  row p ∉ ids (rows st) → rows (resolveRow_settled p o st) = rows st.
Proof.
  intros Hp. unfold resolveRow_settled. destruct (aborted p); [done|].
  destruct o as [m| |m|auto_selected [|c cands]]; cbn;
    rewrite ?updateRow_absent; try done.
  destruct auto_selected; cbn; by rewrite updateRow_absent.
Qed.

(** X7.  When the request of a row settles after the row is gone (removed,
    or replaced by loading a portfolio), no row changes, whatever the
    outcome, and the request is no longer pending. *)
Theorem late_response_for_removed_row
    (uid1 uid2 : string) (es : list Event) (p : Pending) (o : Outcome) :
  let st := run (init uid1 uid2) es in
  p ∈ inflight st → row p ∉ ids (rows st) →
  rows (step st (Settled (ctl p) o)) = rows st ∧
  p ∉ inflight (step st (Settled (ctl p) o)).
Proof.
  intros st Hp Hrow.
  assert (Hst : consistent st) by apply run_consistent, consistent_init.
  cbn [step]. rewrite (settle_found st Hst p o Hp). split.
  - etrans; [apply rows_resolveRow_settled_absent; exact Hrow|done].
  - destruct (resolveRow_settled_net p o
                (setNet (abortRefs st) (controllers st)
                   (filter (λ p', ctl p' ≠ ctl p) (inflight st))
                   (requests st) st)) as (_ & _ & -> & _).
    cbn. intros Hin. apply list_elem_of_filter in Hin as [Hne _]. done.
Qed.

Lemma late_response_for_removed_row_witness :
  let st := run searching_r1 [ClickAdd "r3"; ClickRemove 0] in
  ids (rows st) = ["r2"; "r3"] ∧
  rows (step st (Settled 0 (Data true [candidate "AAP" "Advance Auto Parts"])))
  = rows st.
Proof.
  split; [reflexivity|].
  pose proof (late_response_for_removed_row "r1" "r2"
                [ChangeQuery 0 "AAP"; Blur 0; ClickAdd "r3"; ClickRemove 0]
                {| ctl := 0; row := "r1"; aborted := false |}
                (Data true [candidate "AAP" "Advance Auto Parts"])) as H.
  apply H.
  - apply list_elem_of_here.
  - apply (bool_decide_unpack _). by vm_compute.
Defined.

Lemma run_clearing st k r :
  rows st !! k = Some r →
  run st [ChangeQuery k ""; Blur k]
  = setRows (updateRow (id r) patch_cleared)
      (setRows (updateRow (id r) (patch_typed "")) st).
Proof.
  intros Hk. unfold run. cbn [fold_left step]. unfold on_row at 2. rewrite Hk.
  unfold on_row. rewrite rows_setRows, (updateRow_lookup _ _ _ _ r) by done.
  destruct (decide (id r = id r)); [|done]. cbn.
  unfold resolveRow. cbn. by destruct (decide _).
Qed.

Lemma outstanding_singleton st p :
  consistent st → p ∈ inflight st → aborted p = false →
  outstanding (row p) st = [p].
Proof.
  intros Hst Hp Ha.
  assert (Hin : p ∈ outstanding (row p) st).
  { unfold outstanding. by apply list_elem_of_filter. }
  pose proof (outstanding_at_most_one st Hst (row p)) as Hlen.
  destruct (outstanding (row p) st) as [|a [|b l]]; cbn in Hlen; [|..|lia].
  - by apply elem_of_nil in Hin.
  - by apply list_elem_of_singleton in Hin as ->.
Qed.

(** X8.  Emptying a row's query does not cancel the request of that row
    that is in flight: the request is still the row's outstanding one, and
    when it then settles with an auto-selected candidate, the row, its
    query empty, gets that candidate's symbol as resolved symbol. *)
Theorem clearing_does_not_cancel
    (uid1 uid2 : string) (es : list Event) (k : nat) (r : PositionRow)
    (p : Pending) (c : Candidate) (cs : list Candidate) :
  let st := run (init uid1 uid2) es in
  rows st !! k = Some r → p ∈ inflight st → row p = id r →
  aborted p = false →
  let cleared := run st [ChangeQuery k ""; Blur k] in
  let st' := step cleared (Settled (ctl p) (Data true (c :: cs))) in
  outstanding (id r) cleared = [p] ∧
  ∃ r', rows st' !! k = Some r' ∧ id r' = id r ∧ query r' = "" ∧
        resolvedSymbol r' = Some (provider_symbol c) ∧ loading r' = false.
Proof.
  intros st Hk Hp Hrow Ha cleared st'.
  assert (Hst : consistent st) by apply run_consistent, consistent_init.
  assert (Hcl : cleared
                = setRows (updateRow (id r) patch_cleared)
                    (setRows (updateRow (id r) (patch_typed "")) st))
    by (by apply run_clearing).
  assert (Hc : consistent cleared).
  { rewrite Hcl. by apply (consistent_frame st). }
  assert (Hp' : p ∈ inflight cleared) by (by rewrite Hcl).
  split.
  - rewrite <- Hrow. by apply outstanding_singleton.
  - subst st'. cbn [step]. rewrite (settle_found cleared Hc p _ Hp').
    unfold resolveRow_settled. rewrite Ha, Hrow. cbn [rows setRows setNet].
    rewrite Hcl. cbn [rows setRows].
    eexists. split.
    + erewrite updateRow_lookup; [reflexivity|].
      erewrite updateRow_lookup; [reflexivity|].
      erewrite updateRow_lookup; [reflexivity|exact Hk].
    + repeat destruct (decide _); try done.
Qed.

Lemma clearing_does_not_cancel_witness :
  let st' :=
    run searching_r1
      [ChangeQuery 0 ""; Blur 0;
       Settled 0 (Data true [candidate "AAP" "Advance Auto Parts"])] in
  (query <$> rows st' !! 0%nat) = Some "" ∧
  (resolvedSymbol <$> rows st' !! 0%nat) = Some (Some "AAP").
Proof.
  pose proof (clearing_does_not_cancel "r1" "r2" [ChangeQuery 0 "AAP"; Blur 0]
                0 _ {| ctl := 0; row := "r1"; aborted := false |}
                (candidate "AAP" "Advance Auto Parts") [] eq_refl) as H.
  destruct H as (_ & r' & Hr' & _ & Hq & Hs & _);
    [apply list_elem_of_here|done|done|].
  cbn [ctl] in Hr'.
  change (run searching_r1 _)
    with (step (run (run (init "r1" "r2") [ChangeQuery 0 "AAP"; Blur 0])
                  [ChangeQuery 0 ""; Blur 0])
            (Settled 0 (Data true [candidate "AAP" "Advance Auto Parts"]))).
  cbv zeta. rewrite Hr'. cbn. by rewrite Hq, Hs.
Defined.

(** ** Reports and errors *)

Lemma no_stale_report_frame st st' :
  running st' = running st → runError st' = runError st →
  html st' = html st → validityData st' = validityData st →
  no_stale_report st → no_stale_report st'.
Proof. unfold no_stale_report. by intros -> -> -> ->. Qed.

Lemma resolveRow_run_cells i q st :
  running (resolveRow i q st) = running st ∧
  runError (resolveRow i q st) = runError st ∧
  html (resolveRow i q st) = html st ∧
  validityData (resolveRow i q st) = validityData st.
Proof. unfold resolveRow. by destruct (decide _). Qed.

Lemma settle_run_cells n o st :
  running (settle n o st) = running st ∧
  runError (settle n o st) = runError st ∧
  html (settle n o st) = html st ∧
  validityData (settle n o st) = validityData st.
Proof.
  unfold settle. destruct (find _ _) as [p|]; [|done].
  unfold resolveRow_settled. destruct (aborted p); [done|].
  destruct o as [m| |m|auto_selected [|c cands]]; try done.
  by destruct auto_selected.
Qed.

Lemma runAnalysis_no_stale_report st :
  running st = false → no_stale_report (runAnalysis st).
Proof.
  intros Hr. unfold runAnalysis. destruct (decide _).
  { split; cbn; [by rewrite Hr|done]. }
  destruct (find _ _); split; cbn; try done. by rewrite Hr.
Qed.

Lemma step_no_stale_report st e :
  no_stale_report st → no_stale_report (step st e).
Proof.
  intros Hst.
  destruct e as [k val|k|k j|k v|uid|k|uid pf|n o| |o]; cbn [step];
    unfold on_row; try (destruct (rows st !! k) as [r|]; [|done]);
    try done.
  - destruct (resolveRow_run_cells (id r) (query r) st) as (?&?&?&?).
    by apply (no_stale_report_frame st).
  - destruct (candidates r !! j); [|done].
    by destruct (truthy (resolvedSymbol r)).
  - destruct Hst as [Hrun Herr]. split; cbn.
    + intros Hr. by destruct (Hrun Hr) as (-> & _ & ->).
    + intros He. by destruct (Herr He) as (_ & ->).
  - destruct (settle_run_cells n o st) as (?&?&?&?).
    by apply (no_stale_report_frame st).
  - destruct (running st) eqn:Hr; [done|]. cbn.
    destruct (_ || _); [done|]. by apply runAnalysis_no_stale_report.
  - destruct (running st) eqn:Hr; [|done].
    destruct Hst as [Hrun _]. destruct (Hrun Hr) as (He & Hh & Hv).
    unfold runAnalysis_settled. destruct (analyze_result o); split; cbn;
      try done; by rewrite ?He, ?Hh, ?Hv.
Qed.

(** X9.  In every state the editor reaches, no report and no validity data
    are held while a run is in flight, nor while an error message of
    [runAnalysis] is shown: a failed or refused run never leaves the report
    of an earlier run on screen. *)
Theorem error_never_beside_report (uid1 uid2 : string) (es : list Event) :
  let st := run (init uid1 uid2) es in
  (running st = true →
   runError st = None ∧ html st = "" ∧ validityData st = None) ∧
  (runError st ≠ None → html st = "" ∧ validityData st = None).
Proof.
  change (no_stale_report (run (init uid1 uid2) es)).
  assert (Hinit : no_stale_report (init uid1 uid2)) by (by split).
  revert Hinit. generalize (init uid1 uid2).
  induction es as [|e es IH]; intros st Hst; [done|].
  apply IH. by apply step_no_stale_report.
Qed.

(** ** Rows shown as searching *)

Lemma resolveRow_nonblank i q st :
  trim q ≠ "" →
  resolveRow i q st
  = setRows (updateRow i patch_searching)
      (setNet (<[i := controllers st]> (abortRefs st)) (S (controllers st))
         (match abortRefs st !! i with
          | Some n => abort n (inflight st)
          | None => inflight st
          end ++ [{| ctl := controllers st; row := i; aborted := false |}])
         (requests st ++ [GetResolve (trim q)]) st).
Proof. intros Hq. unfold resolveRow. by destruct (decide _). Qed.

Lemma resolveRow_blank i q st :
  trim q = "" → resolveRow i q st = setRows (updateRow i patch_cleared) st.
Proof. intros Hq. unfold resolveRow. by destruct (decide _). Qed.

(** What [abort] leaves of a pending request. *)
Lemma elem_of_aborted_or_not i st p' :
  p' ∈ match abortRefs st !! i with
       | Some n => abort n (inflight st)
       | None => inflight st
       end →
  ∃ p, p ∈ inflight st ∧ ctl p' = ctl p ∧ row p' = row p.
Proof.
  destruct (abortRefs st !! i) as [n|].
  - intros Hp'. apply elem_of_abort in Hp' as (p & Hp & Hc & Hr & _).
    by exists p.
  - intros Hp'. by exists p'.
Qed.

Lemma tracked_init uid1 uid2 : tracked (init uid1 uid2).
Proof.
  split; [apply consistent_init|]. split.
  - intros i n Hi. cbn in Hi. by rewrite lookup_empty in Hi.
  - intros p i Hp. by apply elem_of_nil in Hp.
Qed.

Lemma tracked_frame st st' :
  abortRefs st' = abortRefs st → controllers st' = controllers st →
  inflight st' = inflight st → tracked st → tracked st'.
Proof.
  intros Hr Hc Hi (Hst & Hlt & Hrow). split.
  - by apply (consistent_frame st).
  - by rewrite Hr, Hc, Hi.
Qed.

Lemma resolveRow_tracked i q st : tracked st → tracked (resolveRow i q st).
Proof.
  intros (Hst & Hlt & Hrow).
  split; [by apply resolveRow_consistent|].
  destruct (decide (trim q = "")) as [Hq|Hq].
  { rewrite resolveRow_blank by done. by split. }
  rewrite resolveRow_nonblank by done. cbn.
  destruct Hst as (_ & Hbound & _). split.
  - intros j n. destruct (decide (i = j)) as [<-|Hne].
    + rewrite lookup_insert_eq. intros [= <-]. lia.
    + rewrite lookup_insert_ne by done. intros Hj. apply Hlt in Hj. lia.
  - intros p j Hp Hj. apply elem_of_app in Hp as [Hp|Hp].
    + apply elem_of_aborted_or_not in Hp as (p0 & Hp0 & Hc & Hr).
      pose proof (Hbound p0 Hp0) as Hb.
      destruct (decide (i = j)) as [<-|Hne].
      * rewrite lookup_insert_eq in Hj. injection Hj as Hj. lia.
      * rewrite lookup_insert_ne in Hj by done. rewrite Hr.
        apply Hrow; [done|]. by rewrite <- Hc.
    + apply list_elem_of_singleton in Hp as ->. cbn in *.
      destruct (decide (i = j)) as [<-|Hne]; [done|].
      rewrite lookup_insert_ne in Hj by done. apply Hlt in Hj. lia.
Qed.

Lemma settle_tracked n o st : tracked st → tracked (settle n o st).
Proof.
  intros (Hst & Hlt & Hrow). split; [by apply settle_consistent|].
  unfold settle. destruct (find _ _) as [p|]; [|done].
  destruct (resolveRow_settled_net p o
              (setNet (abortRefs st) (controllers st)
                 (filter (λ p', ctl p' ≠ n) (inflight st)) (requests st) st))
    as (-> & -> & -> & _).
  cbn. split; [done|].
  intros p' j Hp'. apply list_elem_of_filter in Hp' as [_ Hp']. by apply Hrow.
Qed.

Lemma step_tracked st e : tracked st → tracked (step st e).
Proof.
  intros Hst.
  destruct e as [k val|k|k j|k v|uid|k|uid pf|n o| |o]; cbn [step];
    unfold on_row; try (destruct (rows st !! k) as [r|]; [|done]);
    try (by apply (tracked_frame st)).
  - by apply resolveRow_tracked.
  - destruct (candidates r !! j); [|done].
    destruct (truthy (resolvedSymbol r)); [done|].
    by apply (tracked_frame st).
  - by apply settle_tracked.
  - destruct (_ || _); [done|]. unfold runAnalysis.
    destruct (decide _); [by apply (tracked_frame st)|].
    destruct (find _ _); by apply (tracked_frame st).
  - destruct (running st); [|done]. unfold runAnalysis_settled.
    destruct (analyze_result o); by apply (tracked_frame st).
Qed.

Lemma same_ctl (l : list Pending) a b :
  NoDup (map ctl l) → a ∈ l → b ∈ l → ctl a = ctl b → a = b.
Proof.
  intros Hnd Ha Hb Hc.
  pose proof (find_ctl l a Hnd Ha) as Fa.
  pose proof (find_ctl l b Hnd Hb) as Fb.
  rewrite Hc in Fa. congruence.
Qed.

(** A patch that does not set [loading] to true turns no row to
    searching. *)
Lemma loading_updateRow i patch (l : list PositionRow) r' :
  p_id patch = None → p_loading patch ≠ Some true →
  r' ∈ updateRow i patch l → loading r' = true →
  ∃ r0, r0 ∈ l ∧ id r0 = id r' ∧ loading r0 = true.
Proof.
  intros Hid Hl Hr' Hload. unfold updateRow in Hr'.
  apply elem_of_map in Hr' as (r0 & -> & Hr0). exists r0.
  destruct (decide (id r0 = i)); [|done].
  cbn in *. rewrite Hid. cbn. split; [done|]. split; [done|].
  destruct (p_loading patch) as [[|]|]; cbn in Hload; done.
Qed.

(** A patch that sets [loading] to false leaves searching only rows of
    other ids, untouched. *)
Lemma loading_updateRow_false i patch (l : list PositionRow) r' :
  p_loading patch = Some false →
  r' ∈ updateRow i patch l → loading r' = true → r' ∈ l ∧ id r' ≠ i.
Proof.
  intros Hl Hr' Hload. unfold updateRow in Hr'.
  apply elem_of_map in Hr' as (r0 & -> & Hr0).
  destruct (decide (id r0 = i)); [|done].
  cbn in Hload. by rewrite Hl in Hload.
Qed.

Lemma searching_rows st st' :
  inflight st' = inflight st →
  (∀ r', r' ∈ rows st' → loading r' = true →
         ∃ r0, r0 ∈ rows st ∧ id r0 = id r' ∧ loading r0 = true) →
  searching_is_pending st → searching_is_pending st'.
Proof.
  intros Hi Hrows Hst r' Hr' Hload.
  destruct (Hrows r' Hr' Hload) as (r0 & Hr0 & <- & Hl0).
  unfold outstanding. rewrite Hi. by apply Hst.
Qed.

Lemma searching_same_rows st st' :
  inflight st' = inflight st → rows st' = rows st →
  searching_is_pending st → searching_is_pending st'.
Proof.
  intros Hi Hr. apply searching_rows; [done|].
  intros r' Hr' Hl. exists r'. by rewrite <- Hr.
Qed.

Lemma searching_updateRow i patch st :
  p_id patch = None → p_loading patch ≠ Some true →
  searching_is_pending st →
  searching_is_pending (setRows (updateRow i patch) st).
Proof.
  intros Hid Hl. apply searching_rows; [done|].
  intros r' Hr' Hload. by apply (loading_updateRow i patch).
Qed.

Lemma resolveRow_searching i q st :
  tracked st → searching_is_pending st →
  searching_is_pending (resolveRow i q st).
Proof.
  intros (Hst & _ & Hrow) Hs.
  destruct (decide (trim q = "")) as [Hq|Hq].
  { rewrite resolveRow_blank by done. by apply searching_updateRow. }
  intros r' Hr' Hload.
  destruct (resolveRow_sends i q st Hq) as (pend & _ & Hin & Hkeep & _).
  assert (Hrows : rows (resolveRow i q st)
                  = updateRow i patch_searching (rows st)).
  { by rewrite resolveRow_nonblank. }
  rewrite Hrows in Hr'. unfold updateRow in Hr'.
  apply elem_of_map in Hr' as (r0 & -> & Hr0).
  destruct (decide (id r0 = i)) as [<-|Hne].
  - cbn. by rewrite (resolveRow_outstanding st Hst).
  - pose proof (Hs r0 Hr0 Hload) as Hout.
    destruct (outstanding (id r0) st) as [|q0 l] eqn:Ho; [done|].
    assert (Hq0 : q0 ∈ outstanding (id r0) st)
      by (rewrite Ho; apply list_elem_of_here).
    unfold outstanding in Hq0.
    apply list_elem_of_filter in Hq0 as [[Hr Ha] Hq0].
    pose proof (Hkeep q0 Hq0) as Hk.
    destruct (decide (abortRefs st !! i = Some (ctl q0))) as [Hc|_].
    { destruct Hne. rewrite <- Hr. by apply Hrow. }
    intros Hnil. unfold outstanding in Hnil.
    apply (filter_nil_not_elem_of _ _ q0 Hnil (conj Hr Ha)).
    rewrite Hin. apply elem_of_app. by left.
Qed.

Lemma resolveRow_settled_rows p o s :
  aborted p = false →
  ∃ patch, p_id patch = None ∧ p_loading patch = Some false ∧
           rows (resolveRow_settled p o s)
           = updateRow (row p) patch (rows s).
Proof.
  intros Ha. unfold resolveRow_settled. rewrite Ha.
  destruct o as [m| |m|[|] [|c cands]]; eexists; (split; [|split]);
    try (cbn; reflexivity); reflexivity.
Qed.

Lemma settle_searching n o st :
  consistent st → searching_is_pending st →
  searching_is_pending (settle n o st).
Proof.
  intros Hst Hs. pose proof Hst as (Hnd & _ & _). unfold settle.
  destruct (find _ _) as [p|] eqn:Hf; [|done].
  apply find_some in Hf as [Hp Hn].
  apply list_elem_of_In in Hp. apply bool_decide_eq_true in Hn.
  set (st1 := setNet (abortRefs st) (controllers st)
                (filter (λ p', ctl p' ≠ n) (inflight st)) (requests st) st).
  destruct (resolveRow_settled_net p o st1) as (_ & _ & Hi & _).
  (* a row of another request keeps its outstanding request *)
  assert (Hkeep : ∀ j, (j ≠ row p ∨ aborted p = true) →
            outstanding j st ≠ [] →
            outstanding j (resolveRow_settled p o st1) ≠ []).
  { intros j Hj Hout.
    destruct (outstanding j st) as [|q0 l] eqn:Ho; [done|].
    assert (Hq0 : q0 ∈ outstanding j st)
      by (rewrite Ho; apply list_elem_of_here).
    unfold outstanding in Hq0.
    apply list_elem_of_filter in Hq0 as [[Hr Ha] Hq0].
    intros Hnil. unfold outstanding in Hnil. rewrite Hi in Hnil.
    apply (filter_nil_not_elem_of _ _ q0 Hnil (conj Hr Ha)).
    subst st1. cbn. apply list_elem_of_filter. split; [|done].
    intros Hc. rewrite <- Hn in Hc.
    pose proof (same_ctl _ q0 p Hnd Hq0 Hp Hc) as ->.
    destruct Hj as [Hj|Hj]; [done|congruence]. }
  destruct (aborted p) eqn:Ha.
  - intros r' Hr' Hload. apply Hkeep; [by right|]. apply Hs; [|done].
    unfold resolveRow_settled in Hr'. by rewrite Ha in Hr'.
  - destruct (resolveRow_settled_rows p o st1 Ha) as (patch & _ & Hl & Hrows).
    intros r' Hr' Hload. rewrite Hrows in Hr'.
    apply (loading_updateRow_false _ _ _ _ Hl) in Hr' as [Hr' Hne]; [|done].
    apply Hkeep; [by left|]. by apply Hs.
Qed.

Lemma step_searching st e :
  tracked st → searching_is_pending st → searching_is_pending (step st e).
Proof.
  intros Ht Hs.
  destruct e as [k val|k|k j|k v|uid|k|uid pf|n o| |o]; cbn [step];
    unfold on_row; try (destruct (rows st !! k) as [r|]; [|done]).
  - by apply searching_updateRow.
  - by apply resolveRow_searching.
  - destruct (candidates r !! j); [|done].
    destruct (truthy (resolvedSymbol r)); [done|].
    by apply searching_updateRow.
  - by apply searching_updateRow.
  - apply (searching_rows st); [done| |done].
    intros r' Hr' Hl. cbn in Hr'. unfold addRow in Hr'.
    apply elem_of_app in Hr' as [Hr'|Hr']; [by exists r'|].
    apply list_elem_of_singleton in Hr' as ->. done.
  - apply (searching_rows st); [done| |done].
    intros r' Hr' Hl. exists r'. split; [|done].
    cbn in Hr'. unfold removeRow in Hr'.
    destruct (decide _); [done|].
    by apply list_elem_of_filter in Hr' as [_ Hr'].
  - apply (searching_rows st); [done| |done].
    intros r' Hr' Hl. cbn in Hr'.
    apply elem_of_lookup_imap in Hr' as (n & p & -> & _). done.
  - apply settle_searching; [by destruct Ht|done].
  - destruct (_ || _); [done|]. unfold runAnalysis.
    destruct (decide _); [by apply (searching_same_rows st)|].
    destruct (find _ _); by apply (searching_same_rows st).
  - destruct (running st); [|done]. unfold runAnalysis_settled.
    destruct (analyze_result o); by apply (searching_same_rows st).
Qed.

Lemma run_searching es : ∀ st,
  tracked st → searching_is_pending st →
  tracked (run st es) ∧ searching_is_pending (run st es).
Proof.
  induction es as [|e es IH]; intros st Ht Hs; [done|].
  apply IH; [by apply step_tracked|by apply step_searching].
Qed.

(** X10.  In every state the editor reaches, a row that is shown as
    searching ([loading]) has an outstanding resolution request: the
    spinner is never left on by a request that has settled or has been
    aborted. *)
Theorem searching_row_has_request
    (uid1 uid2 : string) (es : list Event) (r : PositionRow) :
  let st := run (init uid1 uid2) es in
  r ∈ rows st → loading r = true →
  ∃ p, outstanding (id r) st = [p] ∧ p ∈ inflight st ∧ row p = id r ∧
       aborted p = false.
Proof.
  intros st Hr Hl.
  destruct (run_searching es (init uid1 uid2) (tracked_init uid1 uid2))
    as [(Hst & _) Hs].
  { intros r' Hr' Hl'. cbn in Hr'.
    apply elem_of_cons in Hr' as [->|Hr']; [done|].
    by apply list_elem_of_singleton in Hr' as ->. }
  fold st in Hst, Hs. pose proof (Hs r Hr Hl) as Hout.
  pose proof (outstanding_at_most_one st Hst (id r)) as Hlen.
  destruct (outstanding (id r) st) as [|p [|p' l]] eqn:Ho;
    [done| |cbn in Hlen; lia].
  exists p. split; [done|].
  assert (Hp : p ∈ outstanding (id r) st)
    by (rewrite Ho; apply list_elem_of_here).
  unfold outstanding in Hp. by apply list_elem_of_filter in Hp as [[? ?] ?].
Qed.

Lemma searching_row_has_request_witness :
  ∃ r, rows searching_r1 !! 0%nat = Some r ∧ loading r = true ∧
       outstanding (id r) searching_r1
       = [{| ctl := 0; row := "r1"; aborted := false |}].
Proof.
  eexists. split; [reflexivity|]. split; [reflexivity|].
  destruct (searching_row_has_request "r1" "r2" [ChangeQuery 0 "AAP"; Blur 0]
              {| id := "r1"; query := "AAP"; resolvedSymbol := None;
                 amount := Number.of_Z 1000000; candidates := []; loading := true;
                 error := None |})
    as (p & Ho & _); [apply list_elem_of_here|reflexivity|].
  reflexivity.
Defined.

(** ** The queries sent *)

Lemma app_assoc s t u : (s +:+ t) +:+ u = s +:+ t +:+ u.
Proof.
  induction s as [|a s IH]; [done|].
  change (String a ((s +:+ t) +:+ u) = String a (s +:+ t +:+ u)).
  by rewrite IH.
Qed.

Lemma rev_app_app s t acc :
  String.rev_app (s +:+ t) acc = String.rev_app t (String.rev_app s acc).
Proof. revert acc. induction s as [|a s IH]; intros acc; [done|]. apply IH. Qed.

Lemma rev_app_acc s acc : String.rev_app s acc = String.rev s +:+ acc.
Proof.
  unfold String.rev. revert acc.
  induction s as [|a s IH]; intros acc; [done|].
  cbn. rewrite (IH (String a "")), IH.
  by rewrite app_assoc.
Qed.

Lemma rev_app s t : String.rev (s +:+ t) = String.rev t +:+ String.rev s.
Proof. unfold String.rev at 1. by rewrite rev_app_app, rev_app_acc. Qed.

Lemma rev_app_rev_app s : ∀ t,
  String.rev_app (String.rev_app s t) "" = String.rev_app t s.
Proof. induction s as [|a s IH]; intros t; [done|]. cbn. by rewrite IH. Qed.

Lemma rev_rev s : String.rev (String.rev s) = s.
Proof. unfold String.rev. by rewrite rev_app_rev_app. Qed.

Ltac app_norm :=
  repeat (progress change (String ?a ?s +:+ ?t) with (String a (s +:+ t)) in * );
  repeat (progress change (EmptyString +:+ ?t) with t in * ).

(** A white-space character takes one, two or three bytes. *)
Lemma white_space_bytes w :
  w ∈ white_space →
  (∃ a, w = String a "") ∨ (∃ a b, w = String a (String b "")) ∨
  (∃ a b c, w = String a (String b (String c ""))).
Proof.
  intros Hw. unfold white_space in Hw. cbn in Hw.
  repeat (apply elem_of_cons in Hw as [->|Hw]; [eauto 10|]).
  by apply elem_of_nil in Hw.
Qed.

Lemma is_white_space_true w : w ∈ white_space → is_white_space w = true.
Proof. intros Hw. by apply bool_decide_eq_true_2. Qed.

(** What [trim_start] returns does not start with white space. *)
Lemma trim_start_done s w rest :
  w ∈ white_space → trim_start s ≠ w +:+ rest.
Proof.
  intros Hw. pose proof (is_white_space_true w Hw) as Hws.
  assert (Hlen : ∀ n s, (String.length s < n)%nat →
                        trim_start s ≠ w +:+ rest).
  { clear s. induction n as [|n IH]; intros s Hn; [lia|].
    destruct (white_space_bytes w Hw) as [(x&->)|[(x&y&->)|(x&y&z&->)]];
      app_norm;
      (destruct s as [|a s]; [done|]; cbn [trim_start];
       destruct (is_white_space (String a "")) eqn:Ha;
         [apply IH; cbn in *; lia|];
       destruct s as [|b s]; [intros [=]; subst; congruence|];
       destruct (is_white_space (String a (String b ""))) eqn:Hb;
         [apply IH; cbn in *; lia|];
       destruct s as [|c s]; [intros [=]; subst; congruence|];
       destruct (is_white_space (String a (String b (String c "")))) eqn:Hc;
         [apply IH; cbn in *; lia|];
       intros [=]; subst; congruence). }
  apply (Hlen (S (String.length s))). lia.
Qed.

Lemma trim_start_rev_done s w rest :
  w ∈ white_space → trim_start_rev s ≠ String.rev w +:+ rest.
Proof.
  intros Hw. pose proof (is_white_space_true w Hw) as Hws.
  assert (Hlen : ∀ n s, (String.length s < n)%nat →
                        trim_start_rev s ≠ String.rev w +:+ rest).
  { clear s. induction n as [|n IH]; intros s Hn; [lia|].
    destruct (white_space_bytes w Hw) as [(x&->)|[(x&y&->)|(x&y&z&->)]];
      cbn [String.rev String.rev_app]; app_norm;
      (destruct s as [|a s]; [done|]; cbn [trim_start_rev];
       destruct (is_white_space (String a "")) eqn:Ha;
         [apply IH; cbn in *; lia|];
       destruct s as [|b s]; [intros [=]; subst; congruence|];
       destruct (is_white_space (String b (String a ""))) eqn:Hb;
         [apply IH; cbn in *; lia|];
       destruct s as [|c s]; [intros [=]; subst; congruence|];
       destruct (is_white_space (String c (String b (String a "")))) eqn:Hc;
         [apply IH; cbn in *; lia|];
       intros [=]; subst; congruence). }
  apply (Hlen (S (String.length s))). lia.
Qed.

(** [trim_start_rev] returns an end of its argument. *)
Lemma trim_start_rev_suffix s : ∃ pre, s = pre +:+ trim_start_rev s.
Proof.
  assert (Hlen : ∀ n s, (String.length s < n)%nat →
                        ∃ pre, s = pre +:+ trim_start_rev s).
  { clear s. induction n as [|n IH]; intros s Hn; [lia|].
    assert (Hself : ∃ pre, s = pre +:+ s) by (by exists "").
    destruct s as [|a s]; [done|]. cbn [trim_start_rev].
    destruct (is_white_space (String a "")).
    { destruct (IH s) as [pre Hpre]; [cbn in *; lia|].
      exists (String a pre). app_norm. by rewrite <- Hpre. }
    destruct s as [|b s]; [done|].
    destruct (is_white_space (String b (String a ""))).
    { destruct (IH s) as [pre Hpre]; [cbn in *; lia|].
      exists (String a (String b pre)). app_norm. by rewrite <- Hpre. }
    destruct s as [|c s]; [done|].
    destruct (is_white_space _); [|done].
    destruct (IH s) as [pre Hpre]; [cbn in *; lia|].
    exists (String a (String b (String c pre))). app_norm.
    by rewrite <- Hpre. }
  apply (Hlen (S (String.length s))). lia.
Qed.

(** A trimmed string that is not empty has no white space at either
    end. *)
Lemma trim_trimmed q : trim q ≠ "" → trimmed (trim q).
Proof.
  intros Hq. split; [done|]. intros w rest Hw. unfold trim, trim_end.
  set (t := trim_start q).
  destruct (trim_start_rev_suffix (String.rev t)) as [pre Hpre].
  split.
  - intros E. apply (trim_start_done q w (rest +:+ String.rev pre) Hw).
    fold t. rewrite <- (rev_rev t), Hpre, rev_app, E.
    by rewrite app_assoc.
  - intros E. apply (f_equal String.rev) in E.
    rewrite rev_rev, rev_app in E.
    by apply (trim_start_rev_done _ _ _ Hw) in E.
Qed.

Lemma step_requests st e :
  ∃ extra, requests (step st e) = requests st ++ extra ∧
           ∀ q, GetResolve q ∈ extra → trimmed q.
Proof.
  assert (Hnone : ∀ st', requests st' = requests st →
            ∃ extra, requests st' = requests st ++ extra ∧
                     ∀ q, GetResolve q ∈ extra → trimmed q).
  { intros st' ->. exists []. rewrite app_nil_r. split; [done|].
    intros q Hq. by apply elem_of_nil in Hq. }
  destruct e as [k val|k|k j|k v|uid|k|uid pf|n o| |o]; cbn [step];
    unfold on_row; try (destruct (rows st !! k) as [r|]; [|by apply Hnone]);
    try (by apply Hnone).
  - destruct (decide (trim (query r) = "")) as [Hq|Hq].
    + apply Hnone. by rewrite resolveRow_blank.
    + exists [GetResolve (trim (query r))].
      split; [by rewrite resolveRow_nonblank|].
      intros q Hin. apply list_elem_of_singleton in Hin as [= ->].
      by apply trim_trimmed.
  - destruct (candidates r !! j); [|by apply Hnone].
    destruct (truthy (resolvedSymbol r)); by apply Hnone.
  - apply Hnone. unfold settle. destruct (find _ _) as [p|]; [|done].
    by destruct (resolveRow_settled_net p o
                   (setNet (abortRefs st) (controllers st)
                      (filter (λ p', ctl p' ≠ n) (inflight st))
                      (requests st) st)) as (_ & _ & _ & ->).
  - destruct (_ || _); [by apply Hnone|]. unfold runAnalysis.
    destruct (decide _); [by apply Hnone|].
    destruct (find _ _); [by apply Hnone|].
    eexists. split; [reflexivity|].
    intros q Hin. by apply list_elem_of_singleton in Hin.
  - destruct (running st); [|by apply Hnone]. apply Hnone.
    unfold runAnalysis_settled. by destruct (analyze_result o).
Qed.

(** X11.  Every [/resolve] request the editor sends carries a query that
    is not empty and neither starts nor ends with a white-space character
    (any of those that [trim] strips, no-break space and the other Unicode
    spaces and line terminators among them); and requests, once sent, stay
    in the log in the order sent. *)
Theorem resolve_queries_are_trimmed
    (uid1 uid2 : string) (es es' : list Event) (q : string) :
  let st := run (init uid1 uid2) es in
  GetResolve q ∈ requests st →
  (q ≠ "" ∧
   ∀ w rest, w ∈ white_space → q ≠ w +:+ rest ∧ q ≠ rest +:+ w) ∧
  requests st `prefix_of` requests (run st es').
Proof.
  intros st Hq. split.
  - revert Hq. subst st.
    assert (Hinit : ∀ q, GetResolve q ∈ requests (init uid1 uid2) → trimmed q).
    { intros q' Hq'. by apply elem_of_nil in Hq'. }
    revert Hinit. generalize (init uid1 uid2).
    induction es as [|e es IH]; intros st Hst Hq; [by apply Hst|].
    apply (IH (step st e)); [|done].
    intros q' Hq'. destruct (step_requests st e) as (extra & Hreq & Hextra).
    rewrite Hreq in Hq'. apply elem_of_app in Hq' as [Hq'|Hq'];
      [by apply Hst|by apply Hextra].
  - generalize st. clear. induction es' as [|e es' IH]; intros st; [done|].
    cbn. etrans; [|apply IH].
    destruct (step_requests st e) as (extra & -> & _). by apply prefix_app_r.
Qed.

Lemma resolve_queries_are_trimmed_witness :
  let nbsp := bytes [194; 160]%nat in
  requests (run (init "r1" "r2")
              [ChangeQuery 0 (nbsp +:+ " AAPL " +:+ nbsp); Blur 0;
               ChangeQuery 1 nbsp; Blur 1])
  = [GetResolve "AAPL"] ∧
  ∀ w rest, w ∈ white_space → "AAPL" ≠ w +:+ rest ∧ "AAPL" ≠ rest +:+ w.
Proof.
  intros nbsp. split; [vm_compute; reflexivity|].
  pose proof (resolve_queries_are_trimmed "r1" "r2"
                [ChangeQuery 0 (nbsp +:+ " AAPL " +:+ nbsp); Blur 0;
                 ChangeQuery 1 nbsp; Blur 1] [] "AAPL") as H.
  destruct H as [(_ & H) _]; [vm_compute; left|].
  exact H.
Defined.

(** ** Loading a portfolio *)

Lemma loaded_positions (uid : nat → string) (ps : list Hooks.Position) :
  Forall submittable ps →
  currentPositions
    (imap (λ k p,
             {| id := uid k; query := Hooks.ticker p;
                resolvedSymbol := Some (Hooks.ticker p);
                amount := Hooks.amount p;
                candidates := []; loading := false; error := None |}) ps)
  = ps.
Proof.
  revert uid. induction ps as [|p ps IH]; intros uid Hps; [done|].
  apply Forall_cons in Hps as [[Ht Ha] Hps].
  rewrite imap_cons. unfold currentPositions in *. cbn [List.filter].
  unfold is_position at 1. cbn [resolvedSymbol truthy].
  rewrite bool_decide_eq_true_2 by done.
  rewrite (proj2 (has_amount_spec _)) by done.
  cbn [andb map]. f_equal.
  - by destruct p.
  - apply (IH (uid ∘ S) Hps).
Qed.

Lemma loaded_all_resolved (uid : nat → string) (ps : list Hooks.Position) :
  Forall submittable ps →
  allResolved
    (imap (λ k p,
             {| id := uid k; query := Hooks.ticker p;
                resolvedSymbol := Some (Hooks.ticker p);
                amount := Hooks.amount p;
                candidates := []; loading := false; error := None |}) ps)
  = true.
Proof.
  revert uid. induction ps as [|p ps IH]; intros uid Hps; [done|].
  apply Forall_cons in Hps as [[Ht Ha] Hps].
  rewrite imap_cons. unfold allResolved in *. cbn [forallb].
  cbn [resolvedSymbol truthy]. rewrite bool_decide_eq_true_2 by done.
  cbn [orb andb]. apply (IH (uid ∘ S) Hps).
Qed.

(** X12.  Loading a portfolio whose positions were saved from the editor
    gives the editor one resolved row per position, so that the positions
    it would now submit or save are again exactly those of the portfolio;
    any report on screen is dropped and the portfolio becomes the selected
    one.  The number of rows is the number of positions, also when that is
    fewer than two. *)
Theorem load_restores_positions
    (uid : nat → string) (pf : Hooks.Portfolio) (st : App)
    (l : list PositionRow) :
  Hooks.pf_positions pf = currentPositions l →
  let st' := handleLoadPortfolio uid pf st in
  currentPositions (rows st') = Hooks.pf_positions pf ∧
  allResolved (rows st') = true ∧
  length (rows st') = length (Hooks.pf_positions pf) ∧
  html st' = "" ∧
  selectedPortfolioId st' = Some (Hooks.pf_id pf) ∧
  portfolioName st' = Hooks.pf_name pf.
Proof.
  intros Hl st'.
  assert (Hps : Forall submittable (Hooks.pf_positions pf)).
  { rewrite Hl. apply Forall_forall. intros p Hp.
    apply currentPositions_spec in Hp as (r & sym & _ & _ & Hs & Ha & ->).
    by split. }
  subst st'. unfold handleLoadPortfolio. cbn.
  split; [by apply loaded_positions|].
  split; [by apply loaded_all_resolved|].
  by rewrite length_imap.
Qed.

Lemma load_restores_positions_witness :
  let pf :=
    {| Hooks.pf_id := "p9"; Hooks.pf_user_id := "u1";
       Hooks.pf_name := "Single"; Hooks.pf_description := None;
       Hooks.pf_positions :=
         currentPositions [resolved_row "r1" "AAPL" 1000000;
                           new_row "r2" (Number.of_Z (-1000000))];
       Hooks.pf_is_default := false; Hooks.pf_is_tracked := true;
       Hooks.pf_created_at := "2025-01-01";
       Hooks.pf_updated_at := "2025-01-01" |} in
  let st' := handleLoadPortfolio (λ k, pretty k) pf (init "r1" "r2") in
  currentPositions (rows st')
  = [{| Hooks.ticker := "AAPL"; Hooks.amount := Number.of_Z 1000000 |}] ∧
  length (rows st') = 1%nat.
Proof.
  intros pf st'.
  pose proof (load_restores_positions (λ k, pretty k) pf (init "r1" "r2")
                [resolved_row "r1" "AAPL" 1000000;
                 new_row "r2" (Number.of_Z (-1000000))]
                eq_refl) as (H1 & _ & H2 & _).
  split; [exact H1|exact H2].
Defined.

(** ** Error messages *)

Lemma or_str_shown a b : b ≠ "" → or_str a b ≠ "".
Proof. intros Hb. unfold or_str. by destruct (decide (a = "")). Qed.

Lemma errors_updateRow i patch (l : list PositionRow) :
  p_error patch ≠ Some (Some "") →
  (∀ r, r ∈ l → VisibleErrors.shown_if_set (error r)) →
  ∀ r, r ∈ updateRow i patch l → VisibleErrors.shown_if_set (error r).
Proof.
  intros Hp Hl r' Hr'. unfold updateRow in Hr'.
  apply elem_of_map in Hr' as (r & -> & Hr).
  destruct (decide (id r = i)); [|by apply Hl]. cbn.
  destruct (p_error patch) as [e0|] eqn:He; cbn; [|by apply Hl].
  unfold VisibleErrors.shown_if_set. congruence.
Qed.

Lemma errors_setRows_updateRow i patch st :
  p_error patch ≠ Some (Some "") →
  VisibleErrors.editor_errors_shown st →
  VisibleErrors.editor_errors_shown (setRows (updateRow i patch) st).
Proof.
  intros Hp [Hrun Hrows]. split; [done|]. cbn.
  by apply errors_updateRow.
Qed.

Lemma step_errors_shown st e :
  VisibleErrors.editor_errors_shown st →
  VisibleErrors.editor_errors_shown (step st e).
Proof.
  intros Hst. pose proof Hst as [Hrun Hrows].
  destruct e as [k val|k|k j|k v|uid|k|uid pf|n o| |o]; cbn [step];
    unfold on_row; try (destruct (rows st !! k) as [r|]; [|done]).
  - by apply errors_setRows_updateRow.
  - destruct (decide (trim (query r) = "")) as [Hq|Hq].
    + rewrite resolveRow_blank by done. by apply errors_setRows_updateRow.
    + rewrite resolveRow_nonblank by done. split; [done|]. cbn.
      by apply errors_updateRow.
  - destruct (candidates r !! j); [|done].
    destruct (truthy (resolvedSymbol r)); [done|].
    by apply errors_setRows_updateRow.
  - by apply errors_setRows_updateRow.
  - split; [done|]. cbn. unfold addRow. intros r' Hr'.
    apply elem_of_app in Hr' as [Hr'|Hr']; [by apply Hrows|].
    by apply list_elem_of_singleton in Hr' as ->.
  - split; [done|]. cbn. unfold removeRow. intros r' Hr'.
    destruct (decide _); [by apply Hrows|].
    apply list_elem_of_filter in Hr' as [_ Hr']. by apply Hrows.
  - split; [done|]. cbn. intros r' Hr'.
    apply elem_of_lookup_imap in Hr' as (n & p & -> & _). done.
  - unfold settle. destruct (find _ _) as [p|]; [|done].
    unfold resolveRow_settled. destruct (aborted p); [done|].
    destruct o as [m| |m|[|] [|c cands]]; split; try done; cbn;
      apply errors_updateRow; try done; cbn;
      intros [= E]; by apply (or_str_shown _ "Search error") in E.
  - destruct (_ || _); [done|]. unfold runAnalysis.
    destruct (decide _); [by split|]. destruct (find _ _); by split.
  - destruct (running st); [|done]. unfold runAnalysis_settled.
    destruct (analyze_result o) as [m|data]; split; try done. cbn.
    intros [= E]. by apply (or_str_shown _ "Failed to run analysis") in E.
Qed.

(** X20.  In every state the editor reaches, neither the error of
    [runAnalysis] nor the error of any row is the empty string: the error
    cells are rendered when truthy, so a failure recorded is a failure
    shown. *)
Theorem editor_errors_are_never_empty
    (uid1 uid2 : string) (es : list Event) :
  let st := run (init uid1 uid2) es in
  runError st ≠ Some "" ∧ ∀ r, r ∈ rows st → error r ≠ Some "".
Proof.
  change (VisibleErrors.editor_errors_shown (run (init uid1 uid2) es)).
  assert (Hinit : VisibleErrors.editor_errors_shown (init uid1 uid2)).
  { split; [done|]. intros r Hr. cbn in Hr.
    apply elem_of_cons in Hr as [->|Hr]; [done|].
    by apply list_elem_of_singleton in Hr as ->. }
  revert Hinit. generalize (init uid1 uid2).
  induction es as [|e es IH]; intros st Hst; [done|].
  apply IH. by apply step_errors_shown.
Qed.

End EditorMore.

(** * Toasts and format helpers *)

Module ToastsFacts.
Import Toasts.

(** X13.  A toast shown under a fresh id is taken away again by its timer
    or by dismissing it, leaving the list as it was before it was shown;
    toasts shown after it stay, in order; and the timer firing after the
    toast was dismissed changes nothing. *)
Theorem toast_removed_alone
    (uid uid' : string) (ty ty' : ToastType) (msg msg' : string)
    (l : list Toast) :
  uid ∉ id <$> l → uid' ≠ uid →
  expire uid (showToast uid ty msg l) = l ∧
  dismissToast uid (showToast uid ty msg l) = l ∧
  expire uid (showToast uid' ty' msg' (showToast uid ty msg l))
  = showToast uid' ty' msg' l ∧
  expire uid (dismissToast uid (showToast uid ty msg l)) = l.
Proof.
  intros Hfresh Hne.
  assert (Hl : filter (λ t, id t ≠ uid) l = l)
    by (by apply (HooksMore.filter_other_key id)).
  assert (H1 : expire uid (showToast uid ty msg l) = l).
  { unfold expire, showToast. rewrite filter_app, Hl, filter_cons.
    cbn. destruct (decide (uid ≠ uid)); [done|]. by rewrite app_nil_r. }
  split; [done|]. split; [exact H1|]. split.
  - unfold expire, showToast in *. rewrite filter_app, H1, filter_cons.
    cbn. by destruct (decide (uid' ≠ uid)).
  - unfold dismissToast. unfold expire in H1. rewrite H1. exact Hl.
Qed.

Lemma toast_removed_alone_witness :
  expire "t1" (showToast "t2" error "Failed to save portfolio"
                 (showToast "t1" success "Portfolio deleted" []))
  = showToast "t2" error "Failed to save portfolio" [].
Proof.
  apply (toast_removed_alone "t1" "t2" success error "Portfolio deleted"
           "Failed to save portfolio" []).
  - apply not_elem_of_nil.
  - done.
Defined.

End ToastsFacts.

Module FormatFacts.
Import Format.

(** X14.  [formatDate] gives "Just now" for a date less than a minute old
    and for any date in the future; otherwise the whole minutes from 1 to
    59, then the whole hours from 1 to 23, then the whole days from 1 to 6
    since the date; and from seven days on, as for a date that does not
    parse, the localized date. *)
Theorem formatDate_ranges (now t : Z) :
  let d := now - t in
  formatDate now None = Localized None ∧
  (d < 60000 → formatDate now (Some t) = Relative "Just now") ∧
  (60000 ≤ d < 3600000 →
     formatDate now (Some t) = Relative (pretty (d / 60000) +:+ "m ago") ∧
     1 ≤ d / 60000 ≤ 59) ∧
  (3600000 ≤ d < 86400000 →
     formatDate now (Some t) = Relative (pretty (d / 3600000) +:+ "h ago") ∧
     1 ≤ d / 3600000 ≤ 23) ∧
  (86400000 ≤ d < 604800000 →
     formatDate now (Some t) = Relative (pretty (d / 86400000) +:+ "d ago") ∧
     1 ≤ d / 86400000 ≤ 6) ∧
  (604800000 ≤ d → formatDate now (Some t) = Localized (Some t)).
Proof.
  intros d. split; [done|]. unfold formatDate. cbv zeta. fold d. clearbody d.
  split; [|split; [|split; [|split]]]; intros Hd;
    repeat (destruct (decide _)); repeat split; try done;
    Z.div_mod_to_equations; lia.
Qed.

Lemma formatDate_ranges_witness :
  formatDate 1700000000000 (Some (1700000000000 - 7199999))
  = Relative "1h ago" ∧
  formatDate 1700000000000 (Some 1700000500000) = Relative "Just now".
Proof.
  pose proof (formatDate_ranges 1700000000000 (1700000000000 - 7199999))
    as (_ & _ & _ & H & _).
  pose proof (formatDate_ranges 1700000000000 1700000500000)
    as (_ & H' & _).
  split.
  - destruct H as [H _]; [cbn; lia|]. exact H.
  - apply H'. cbn. lia.
Defined.

(** X15.  For every alert type of the [Alert] interface, [getAlertColor]
    returns its default colours: only the strings BUY_SIGNAL, SELL_SIGNAL
    and REGIME_CHANGE, which are not alert types, get colours of their
    own. *)
Theorem alert_types_get_default_color (t : Hooks.alert_type) (s : string) :
  getAlertColor (alert_type_text t) = default_color ∧
  (getAlertColor s ≠ default_color ↔
   s ∈ ["BUY_SIGNAL"; "SELL_SIGNAL"; "REGIME_CHANGE"]).
Proof.
  split; [by destruct t|].
  unfold getAlertColor. rewrite !elem_of_cons, elem_of_nil.
  destruct (decide _) as [->|H1].
  { split; [intros _; by left|intros _; discriminate]. }
  destruct (decide _) as [->|H2].
  { split; [intros _; right; by left|intros _; discriminate]. }
  destruct (decide _) as [->|H3].
  { split; [intros _; right; right; by left|intros _; discriminate]. }
  split; [done|]. intros [?|[?|[?|[]]]]; done.
Qed.

End FormatFacts.

(** * Properties of the upload panel *)

Module UploadFacts.
Import Upload UploadSamples UploadInvariants.

(** ** Weights and toggles *)

Lemma toggleInclude_lookup index l j :
  toggleInclude index l !! j
  = (λ s, if decide (j = index)
          then {| name := name s; weight := weight s;
                  include := negb (include s) |}
          else s) <$> l !! j.
Proof. unfold toggleInclude. apply list_lookup_imap. Qed.

Lemma updateWeight_lookup index w l j :
  updateWeight index w l !! j
  = (λ s, if decide (j = index)
          then {| name := name s; weight := w; include := include s |}
          else s) <$> l !! j.
Proof. unfold updateWeight. apply list_lookup_imap. Qed.

(** X16.  Toggling a series twice restores the list; toggling a series or
    changing its weight changes no other series, no name and not the
    number of series, does nothing for an index out of range, and the two
    edits commute. *)
Theorem weight_edits_are_local (index : nat) (w : Q) (l : list SeriesWeight) :
  toggleInclude index (toggleInclude index l) = l ∧
  name <$> toggleInclude index l = name <$> l ∧
  name <$> updateWeight index w l = name <$> l ∧
  (∀ j, j ≠ index →
        toggleInclude index l !! j = l !! j ∧
        updateWeight index w l !! j = l !! j) ∧
  ((length l ≤ index)%nat →
     toggleInclude index l = l ∧ updateWeight index w l = l) ∧
  toggleInclude index (updateWeight index w l)
  = updateWeight index w (toggleInclude index l).
Proof.
  assert (Hother : ∀ j, j ≠ index →
            toggleInclude index l !! j = l !! j ∧
            updateWeight index w l !! j = l !! j).
  { intros j Hj. rewrite toggleInclude_lookup, updateWeight_lookup.
    destruct (l !! j) as [s|]; cbn; [|done].
    by destruct (decide (j = index)). }
  split; [|split; [|split; [|split; [done|split]]]].
  - apply list_eq. intros j. rewrite !toggleInclude_lookup.
    destruct (l !! j) as [s|]; cbn; [|done].
    destruct (decide (j = index)); [|done].
    cbn. rewrite negb_involutive. by destruct s.
  - apply list_eq. intros j. rewrite !list_lookup_fmap, toggleInclude_lookup.
    destruct (l !! j) as [s|]; cbn; [|done].
    by destruct (decide (j = index)).
  - apply list_eq. intros j. rewrite !list_lookup_fmap, updateWeight_lookup.
    destruct (l !! j) as [s|]; cbn; [|done].
    by destruct (decide (j = index)).
  - intros Hlen. split; apply list_eq; intros j.
    + rewrite toggleInclude_lookup. destruct (l !! j) as [s|] eqn:Hj; [|done].
      apply lookup_lt_Some in Hj. cbn.
      destruct (decide (j = index)); [lia|done].
    + rewrite updateWeight_lookup. destruct (l !! j) as [s|] eqn:Hj; [|done].
      apply lookup_lt_Some in Hj. cbn.
      destruct (decide (j = index)); [lia|done].
  - apply list_eq. intros j.
    rewrite toggleInclude_lookup, !updateWeight_lookup, toggleInclude_lookup.
    destruct (l !! j) as [s|]; cbn; [|done].
    by destruct (decide (j = index)).
Qed.

(** ** What an analysis request carries *)

Lemma fold_insert_is_Some (entries : list (string * Q)) :
  ∀ (acc : gmap string Q) k,
  is_Some (fold_left (λ obj e, <[e.1 := e.2]> obj) entries acc !! k)
  ↔ k ∈ entries.*1 ∨ is_Some (acc !! k).
Proof.
  induction entries as [|[k' v'] es IH]; intros acc k; cbn.
  - rewrite elem_of_nil. tauto.
  - rewrite IH, elem_of_cons. destruct (decide (k' = k)) as [->|Hne].
    + rewrite lookup_insert_eq. split; [intros _; by left; left|].
      intros _. right. by eexists.
    + rewrite lookup_insert_ne by done. split.
      * intros [?|?]; [left; by right|by right].
      * intros [[?|?]|?]; [congruence|by left|by right].
Qed.

Lemma fold_insert_other (entries : list (string * Q)) :
  ∀ (acc : gmap string Q) k,
  k ∉ entries.*1 →
  fold_left (λ obj e, <[e.1 := e.2]> obj) entries acc !! k = acc !! k.
Proof.
  induction entries as [|[k' v'] es IH]; intros acc k Hk; [done|].
  cbn in *. apply not_elem_of_cons in Hk as [Hne Hk].
  rewrite IH by done. by rewrite lookup_insert_ne.
Qed.

Lemma fold_insert_lookup (entries : list (string * Q)) :
  ∀ (acc : gmap string Q) k v,
  NoDup entries.*1 → (k, v) ∈ entries →
  fold_left (λ obj e, <[e.1 := e.2]> obj) entries acc !! k = Some v.
Proof.
  induction entries as [|[k' v'] es IH]; intros acc k v Hnd Hin.
  - by apply elem_of_nil in Hin.
  - cbn in *. apply NoDup_cons in Hnd as [Hk' Hnd].
    apply elem_of_cons in Hin as [[= -> ->]|Hin].
    + rewrite fold_insert_other by done. apply lookup_insert_eq.
    + by apply IH.
Qed.

Lemma elem_of_activeWeights l s :
  s ∈ activeWeights l ↔ s ∈ l ∧ include s = true.
Proof.
  unfold activeWeights. rewrite !list_elem_of_In, filter_In. done.
Qed.

(** The weights of the form data: the names sent are those of the series
    included, each, when names are distinct, with its weight. *)
Lemma weights_sent_spec l :
  (∀ nm, is_Some (weights_sent l !! nm)
         ↔ ∃ s, s ∈ l ∧ include s = true ∧ name s = nm) ∧
  (NoDup (name <$> l) →
   ∀ s, s ∈ l → include s = true → weights_sent l !! name s = Some (weight s)).
Proof.
  unfold weights_sent, fromEntries. split.
  - intros nm. rewrite fold_insert_is_Some, lookup_empty.
    change (map ?f ?x) with (f <$> x). rewrite <- list_fmap_compose.
    rewrite list_elem_of_fmap. split.
    + intros [(s & -> & Hs)|[? ?]]; [|done].
      apply elem_of_activeWeights in Hs as [Hs Hi]. by exists s.
    + intros (s & Hs & Hi & <-). left. exists s. split; [done|].
      by apply elem_of_activeWeights.
  - intros Hnd s Hs Hi. apply fold_insert_lookup.
    + change (map ?f ?x) with (f <$> x). rewrite <- list_fmap_compose.
      eapply sublist_NoDup; [exact Hnd|].
      apply (fmap_sublist name). unfold activeWeights.
      clear. induction l as [|x l IH]; [done|]. cbn.
      destruct (include x); [by apply sublist_skip|by apply sublist_cons].
    + apply (EditorFacts.elem_of_map (λ s, (name s, weight s))). exists s.
      split; [done|]. by apply elem_of_activeWeights.
Qed.

(** X17.  The panel's [runAnalysis] does nothing without a file or without
    a validation that is valid.  With both, if no series is included it
    sets the message asking for one and sends nothing; otherwise it sends
    one request for the file whose weights name exactly the included
    series, each (for distinct names) with its weight, and clears the
    error. *)
Theorem upload_run_sends_included (st : Panel) :
  let st' := runAnalysis st in
  ((file st = None ∨ validation st = None ∨
    (∃ v, validation st = Some v ∧ valid v = false)) → st' = st) ∧
  (∀ f v, file st = Some f → validation st = Some v → valid v = true →
     ((∀ s, s ∈ seriesWeights st → include s = false) →
        error st' = Some "Please include at least one series" ∧
        sent st' = sent st ∧ isAnalyzing st' = isAnalyzing st) ∧
     ((∃ s, s ∈ seriesWeights st ∧ include s = true) →
        ∃ weights,
          sent st' = sent st ++
            [PostCustom f weights (context st) (includeAiMemo st)
               (analysisName st)] ∧
          (∀ nm, is_Some (weights !! nm)
                 ↔ ∃ s, s ∈ seriesWeights st ∧ include s = true ∧
                        name s = nm) ∧
          (NoDup (name <$> seriesWeights st) →
           ∀ s, s ∈ seriesWeights st → include s = true →
                weights !! name s = Some (weight s)) ∧
          isAnalyzing st' = true ∧ error st' = None ∧
          dataDeleted st' = false)).
Proof.
  intros st'. subst st'. unfold runAnalysis. split.
  - intros [Hf|[Hv|(v & Hv & Hvalid)]].
    + by rewrite Hf.
    + rewrite Hv. by destruct (file st).
    + rewrite Hv, Hvalid. by destruct (file st).
  - intros f v -> -> ->. cbn [negb]. split.
    + intros Hnone.
      destruct (decide _) as [_|Hne]; [done|]. destruct Hne.
      destruct (activeWeights (seriesWeights st)) as [|s l] eqn:Ha; [done|].
      assert (Hs : s ∈ activeWeights (seriesWeights st))
        by (rewrite Ha; apply list_elem_of_here).
      apply elem_of_activeWeights in Hs as [Hs Hi].
      rewrite (Hnone s Hs) in Hi. done.
    + intros (s & Hs & Hi).
      destruct (decide _) as [He|_].
      { apply length_zero_iff_nil in He.
        assert (Hin : s ∈ activeWeights (seriesWeights st))
          by (by apply elem_of_activeWeights).
        rewrite He in Hin. by apply elem_of_nil in Hin. }
      cbn. eexists. split; [reflexivity|].
      destruct (weights_sent_spec (seriesWeights st)) as [H1 H2].
      split; [exact H1|]. split; [exact H2|done].
Qed.

Lemma upload_run_sends_included_witness :
  sent (runAnalysis (setSeriesWeights (toggleInclude 1) validated))
  = [PostValidate "prices.csv";
     PostCustom "prices.csv" {["SPX" := 1%Q]} "" true "Custom Analysis"].
Proof.
  destruct (upload_run_sends_included
              (setSeriesWeights (toggleInclude 1) validated)) as [_ H].
  destruct (H "prices.csv" two_series eq_refl eq_refl eq_refl) as [_ H'].
  destruct H' as (w & Hsent & _).
  - exists (included "SPX"). split; [apply list_elem_of_here|done].
  - reflexivity.
Defined.

Lemma fold_insert_const (v : Q) (entries : list (string * Q)) :
  ∀ (acc : gmap string Q) k,
  (∀ e, e ∈ entries → e.2 = v) → k ∈ entries.*1 →
  fold_left (λ obj e, <[e.1 := e.2]> obj) entries acc !! k = Some v.
Proof.
  induction entries as [|[k' v'] es IH]; intros acc k Hv Hk.
  - by apply elem_of_nil in Hk.
  - cbn in *. destruct (decide (k ∈ es.*1)) as [Hin|Hout].
    + apply IH; [|done]. intros e He. apply Hv. by apply list_elem_of_further.
    + apply elem_of_cons in Hk as [->|Hk]; [|done].
      rewrite fold_insert_other by done. rewrite lookup_insert_eq.
      f_equal. apply (Hv (k', v')). apply list_elem_of_here.
Qed.

Lemma activeWeights_included (names : list string) :
  activeWeights (map included names) = map included names.
Proof.
  unfold activeWeights. induction names as [|nm l IH]; [done|].
  cbn. by rewrite IH.
Qed.

(** X18.  When a validation comes back valid with at least one series, all
    its series are listed as included with weight 1, and running the
    analysis right away sends the file currently chosen with exactly those
    series, each with weight 1; this is so whichever file the validation
    had been requested for. *)
Theorem valid_validation_is_runnable
    (st : Panel) (f : File) (result : ValidationResult) (d : ValidationData) :
  file st = Some f → validating st ≠ 0%nat → isAnalyzing st = false →
  htmlResult st = None →
  valid result = true → data result = Some d → series d ≠ [] →
  let st' := run st [ValidationEnds (ValidateResult result); ClickRun] in
  seriesWeights st' = included <$> series d ∧
  ∃ w, sent st'
       = sent st ++
         [PostCustom f w (context st) (includeAiMemo st) (analysisName st)] ∧
       ∀ nm, w !! nm = if decide (nm ∈ series d) then Some 1%Q else None.
Proof.
  intros Hf Hv Ha Hh Hvalid Hd Hs st'. subst st'. unfold run.
  cbn [fold_left].
  set (st1 := step st (ValidationEnds (ValidateResult result))).
  assert (Hne : length (map included (series d)) ≠ 0%nat).
  { rewrite length_map. destruct (series d); [done|cbn; lia]. }
  assert (Hw : initial_weights result (seriesWeights st)
               = map included (series d)).
  { unfold initial_weights. rewrite Hd, Hvalid. cbn.
    rewrite bool_decide_eq_true_2; [done|].
    rewrite length_map in Hne. lia. }
  assert (H1 : file st1 = Some f ∧ validation st1 = Some result ∧
               seriesWeights st1 = map included (series d) ∧
               isAnalyzing st1 = false ∧ htmlResult st1 = None ∧
               context st1 = context st ∧
               includeAiMemo st1 = includeAiMemo st ∧
               analysisName st1 = analysisName st ∧ sent st1 = sent st).
  { subst st1. cbn [step]. destruct (validating st) as [|n]; [done|].
    cbn. by rewrite Hw. }
  destruct H1 as (Hf1 & Hv1 & Hw1 & Ha1 & Hh1 & Hc1 & Hm1 & Hn1 & Hs1).
  assert (Hrun : step st1 ClickRun = runAnalysis st1).
  { cbn [step]. unfold configuring, showing_result.
    rewrite Hv1, Hh1, Ha1, Hw1, activeWeights_included, Hvalid, Hd.
    cbn [truthy negb andb orb].
    rewrite bool_decide_eq_true_2 by (by eexists). cbn [negb orb].
    by rewrite bool_decide_eq_false_2. }
  rewrite Hrun. unfold runAnalysis.
  rewrite Hf1, Hv1, Hvalid, Hw1, activeWeights_included. cbn [negb].
  destruct (decide _) as [He|_]; [done|].
  cbn [seriesWeights sent]. rewrite Hs1, Hc1, Hm1, Hn1.
  split; [done|]. eexists. split; [reflexivity|].
  intros nm. unfold weights_sent, fromEntries.
  rewrite activeWeights_included.
  destruct (decide (nm ∈ series d)) as [Hin|Hout].
  - apply fold_insert_const.
    + intros e He. apply EditorFacts.elem_of_map in He as (s & -> & Hs').
      apply EditorFacts.elem_of_map in Hs' as (nm' & -> & _). done.
    + change (map ?g ?x) with (g <$> x). rewrite <- !list_fmap_compose.
      apply list_elem_of_fmap. by exists nm.
  - rewrite fold_insert_other; [apply lookup_empty|].
    change (map ?g ?x) with (g <$> x). rewrite <- !list_fmap_compose.
    intros Hin. apply list_elem_of_fmap in Hin as (nm' & -> & Hin). done.
Qed.

Lemma valid_validation_is_runnable_witness :
  sent (run awaiting [ValidationEnds (ValidateResult two_series); ClickRun])
  = [PostValidate "prices.csv";
     PostCustom "prices.csv" {["SPX" := 1%Q; "NDX" := 1%Q]} "" true
       "Custom Analysis"].
Proof.
  assert (Hv : validating awaiting ≠ 0%nat) by done.
  assert (Hs : series spx_ndx ≠ []) by done.
  pose proof (valid_validation_is_runnable awaiting "prices.csv" two_series
                spx_ndx eq_refl Hv eq_refl eq_refl eq_refl eq_refl Hs)
    as (_ & w & Hsent & Hw).
  reflexivity.
Defined.

(** ** Invariants of the panel *)

(** States that differ from a sound one in neither the result cells, the
    file nor the requests sent are sound. *)
Lemma sound_frame st st' :
  dataDeleted st' = dataDeleted st → htmlResult st' = htmlResult st →
  file st' = file st → sent st' = sent st → sound st → sound st'.
Proof. unfold sound. by intros -> -> -> ->. Qed.

Lemma runAnalysis_sound st : sound st → sound (runAnalysis st).
Proof.
  intros Hst. pose proof Hst as (Hd & Hf & Hs). unfold runAnalysis.
  destruct (file st) as [f|] eqn:Ef; [|done].
  destruct (validation st) as [v|]; [|done].
  destruct (valid v); cbn [negb]; [|done].
  destruct (decide _) as [He|Hne].
  { by apply (sound_frame st). }
  split; [done|]. cbn. split.
  - intros f' [= <-]. apply elem_of_app. left. by apply Hf.
  - intros f' w c m n Hin. apply elem_of_app in Hin as [Hin|Hin].
    + destruct (Hs _ _ _ _ _ Hin) as [? ?]. split; [done|].
      apply elem_of_app. by left.
    + apply list_elem_of_singleton in Hin as [= -> -> -> -> ->]. split.
      * destruct (activeWeights (seriesWeights st)) as [|s l] eqn:Ha;
          [done|].
        assert (Hin : s ∈ activeWeights (seriesWeights st))
          by (rewrite Ha; apply list_elem_of_here).
        apply elem_of_activeWeights in Hin as [Hin Hi].
        destruct (weights_sent_spec (seriesWeights st)) as [H1 _].
        intros Hw. assert (Hsome : is_Some (weights_sent (seriesWeights st)
                                             !! name s)).
        { apply H1. by exists s. }
        rewrite Hw, lookup_empty in Hsome. by destruct Hsome.
      * apply elem_of_app. left. by apply Hf.
Qed.

Lemma step_sound st e : sound st → sound (step st e).
Proof.
  intros Hst. pose proof Hst as (Hd & Hf & Hs).
  destruct e as [f|o|index w|index| |o|]; cbn [step].
  - destruct (showing_result st); [done|]. split; [done|]. cbn. split.
    + intros f' [= <-]. apply elem_of_app. right. apply list_elem_of_here.
    + intros f' w c m n Hin. apply elem_of_app in Hin as [Hin|Hin].
      * destruct (Hs _ _ _ _ _ Hin) as [? ?]. split; [done|].
        apply elem_of_app. by left.
      * by apply list_elem_of_singleton in Hin.
  - destruct (validating st) as [|n]; [done|].
    destruct o as [m|t|m|result]; by apply (sound_frame st).
  - destruct (seriesWeights st !! index) as [s|]; [|done].
    destruct (_ && _); [|done]. by apply (sound_frame st).
  - destruct (configuring st); [|done]. by apply (sound_frame st).
  - destruct (_ || _); [done|]. by apply runAnalysis_sound.
  - destruct (isAnalyzing st); [|done].
    destruct o as [m|t d|html].
    + by apply (sound_frame st).
    + by apply (sound_frame st).
    + split; [by eexists|]. by split.
  - destruct (showing_result st); [|done]. split; [done|]. by split.
Qed.

(** X19.  In every state the panel reaches, the notice that the data has
    been deleted is on only when an analysis result is held; every
    analysis request sent carried at least one weight and was for a file
    that had been sent for validation before; and the file currently
    chosen has been sent for validation. *)
Theorem upload_panel_invariants (es : list Event) :
  let st := run initial es in
  (dataDeleted st = true → ∃ html, htmlResult st = Some html) ∧
  (∀ f w c m n, PostCustom f w c m n ∈ sent st →
                w ≠ ∅ ∧ PostValidate f ∈ sent st) ∧
  (∀ f, file st = Some f → PostValidate f ∈ sent st).
Proof.
  intros st.
  assert (Hst : sound st).
  { subst st. assert (Hinit : sound initial).
    { split; [done|]. split; [done|].
      intros f w c m n Hin. by apply elem_of_nil in Hin. }
    revert Hinit. generalize initial.
    induction es as [|e es IH]; intros st Hst; [done|].
    apply IH. by apply step_sound. }
  destruct Hst as (Hd & Hf & Hs). split; [exact Hd|]. by split.
Qed.

(** ** Error messages *)

Lemma step_error_shown st e :
  VisibleErrors.shown_if_set (error st) →
  VisibleErrors.shown_if_set (error (step st e)).
Proof.
  intros Hst. unfold VisibleErrors.shown_if_set in *.
  destruct e as [f|o|k w|k| |o|]; cbn [step].
  - by destruct (showing_result st).
  - destruct (validating st); [done|]. cbn.
    destruct o as [m|t|m|res]; cbn; try done;
      intros [= E]; by apply (EditorMore.or_str_shown _ _) in E.
  - destruct (seriesWeights st !! k); [|done]. by destruct (_ && _).
  - by destruct (configuring st).
  - destruct (_ || _); [done|]. unfold runAnalysis.
    destruct (file st), (validation st) as [v|]; try done.
    destruct (negb (valid v)); [done|]. by destruct (decide _).
  - destruct (isAnalyzing st); [|done].
    destruct o as [m|t d|html]; cbn; try done;
      intros [= E]; by apply (EditorMore.or_str_shown _ _) in E.
  - by destruct (showing_result st).
Qed.

(** X21.  In every state the upload panel reaches, its error is not the
    empty string: whatever the validation or the analysis request ends
    with, the message kept is one the panel renders. *)
Theorem upload_errors_are_never_empty (es : list Event) :
  error (run initial es) ≠ Some "".
Proof.
  change (VisibleErrors.shown_if_set (error (run initial es))).
  assert (Hinit : VisibleErrors.shown_if_set (error initial)) by done.
  revert Hinit. generalize initial.
  induction es as [|e es IH]; intros st Hst; [done|].
  apply IH. by apply step_error_shown.
Qed.

End UploadFacts.

(** * Properties of the authenticated fetch wrapper *)

Module AuthFacts.
Import Auth.

Lemma append_lookup nm value (h : gmap string string) k :
  append nm value h !! k =
  if decide (k = lower nm)
  then Some (match h !! lower nm with
             | Some v => v +:+ ", " +:+ value
             | None => value
             end)
  else h !! k.
Proof.
  unfold append. destruct (decide (k = lower nm)) as [->|Hk];
    destruct (h !! lower nm); by rewrite ?lookup_insert_eq, ?lookup_insert_ne.
Qed.

Lemma new_Headers_acc init (h : gmap string string) k :
  is_Some (fold_left (λ h e, append e.1 e.2 h) init h !! k) ↔
  is_Some (h !! k) ∨ ∃ e, e ∈ init ∧ lower e.1 = k.
Proof.
  revert h. induction init as [|e init IH]; intros h; cbn.
  - split; [by left|]. intros [H|(e & He & _)]; [done|].
    by apply elem_of_nil in He.
  - rewrite IH, append_lookup. split.
    + intros [H|(e' & He' & Hk)].
      * destruct (decide (k = lower e.1)) as [->|]; [|by left].
        right. exists e. split; [left|done].
      * right. exists e'. split; [by right|done].
    + intros [H|(e' & He' & Hk)].
      * left. by destruct (decide _).
      * apply elem_of_cons in He' as [->|He'].
        -- left. rewrite decide_True by done. by eexists.
        -- right. by exists e'.
Qed.

(** A [Headers] object built from the caller's headers has a header
    exactly when the caller named it, in any letter case. *)
Lemma has_new_Headers nm init :
  has nm (new_Headers init) = true ↔ names nm init.
Proof.
  unfold has, new_Headers, names. rewrite bool_decide_eq_true.
  rewrite new_Headers_acc, lookup_empty. split.
  - intros [H|H]; [by destruct H|done].
  - by right.
Qed.

Lemma get_set nm value (h : gmap string string) k :
  get k (set nm value h) =
  if decide (lower k = lower nm) then Some value else get k h.
Proof.
  unfold get, set. destruct (decide _) as [->|Hk].
  - by rewrite lookup_insert_eq.
  - by rewrite lookup_insert_ne.
Qed.

Lemma has_get nm (h : gmap string string) :
  has nm h = bool_decide (is_Some (get nm h)).
Proof. done. Qed.

(** X22.  With a token, the request that [authFetch] passes to [fetch]
    carries [Authorization: Bearer <token>], whatever headers the caller
    gave (an Authorization header of the caller, in any letter case, is
    replaced); the URL, the method and the body are the caller's, and so is
    every header other than Authorization and Content-Type. *)
Theorem authFetch_sends_bearer
    (t url : string) (options : RequestInit) :
  t ≠ "" →
  let req := authFetch (Some t) url options in
  get "Authorization" (f_headers req) = Some ("Bearer " +:+ t) ∧
  f_url req = url ∧ f_method req = method options ∧
  f_body req = body options ∧
  ∀ nm, lower nm ≠ "authorization" → lower nm ≠ "content-type" →
        get nm (f_headers req) = get nm (new_Headers (headers options)).
Proof.
  intros Ht req. subst req. unfold authFetch. cbn [truthy default].
  rewrite bool_decide_eq_true_2 by done.
  cbn [f_url f_method f_headers f_body].
  split; [|split; [done|split; [done|split; [done|]]]].
  - destruct (_ && _); rewrite ?get_set; cbn; by rewrite ?get_set.
  - intros nm Ha Hc.
    destruct (_ && _); rewrite ?get_set; cbn;
      rewrite ?decide_False by done; rewrite ?get_set; cbn;
      by rewrite ?decide_False by done.
Qed.

Lemma authFetch_sends_bearer_witness :
  get "Authorization"
    (f_headers (authFetch (Some "jwt") "/api/alerts"
       {| method := Some "DELETE";
          headers := [("authorization", "Basic abc")];
          body := None |}))
  = Some "Bearer jwt".
Proof.
  pose proof (authFetch_sends_bearer "jwt" "/api/alerts"
    {| method := Some "DELETE"; headers := [("authorization", "Basic abc")];
       body := None |}) as H.
  apply H. done.
Defined.

(** X23.  Content-Type of the request of [authFetch]: a request with a
    (non-empty) body always has one; it is the caller's when the caller
    named it in any letter case, and [application/json] otherwise.  Without
    a body the header is the caller's or absent. *)
Theorem authFetch_content_type
    (token : option string) (url : string) (options : RequestInit) :
  let req := authFetch token url options in
  let given := get "Content-Type" (new_Headers (headers options)) in
  (names "Content-Type" (headers options) ∨ truthy (body options) = false →
     get "Content-Type" (f_headers req) = given) ∧
  (¬ names "Content-Type" (headers options) → truthy (body options) = true →
     get "Content-Type" (f_headers req) = Some "application/json") ∧
  (truthy (body options) = true → has "Content-Type" (f_headers req) = true).
Proof.
  intros req given. subst req given. unfold authFetch.
  cbn [f_url f_method f_headers f_body].
  set (h0 := new_Headers (headers options)).
  set (h1 := if truthy token then _ else _).
  assert (Hget : get "Content-Type" h1 = get "Content-Type" h0).
  { subst h1. destruct (truthy token); [|done]. by rewrite get_set. }
  assert (Hhas : has "Content-Type" h1 = has "Content-Type" h0).
  { by rewrite !has_get, Hget. }
  rewrite Hhas. split; [|split].
  - intros [Hn|Hb].
    + apply has_new_Headers in Hn. fold h0 in Hn. rewrite Hn.
      by rewrite andb_false_r.
    + by rewrite Hb.
  - intros Hn Hb. rewrite Hb.
    destruct (has "Content-Type" h0) eqn:Hh.
    + by apply has_new_Headers in Hh.
    + cbn [andb negb]. by rewrite get_set.
  - intros Hb. rewrite Hb.
    destruct (has "Content-Type" h0) eqn:Hh; cbn [andb negb].
    + by rewrite Hhas.
    + rewrite has_get, get_set. done.
Qed.

Lemma authFetch_content_type_witness :
  get "Content-Type"
    (f_headers (authFetch (Some "jwt") "/api/portfolios"
       {| method := Some "POST"; headers := [("content-type", "text/plain")];
          body := Some "{}" |}))
  = Some "text/plain".
Proof.
  pose proof (authFetch_content_type (Some "jwt") "/api/portfolios"
    {| method := Some "POST"; headers := [("content-type", "text/plain")];
       body := Some "{}" |}) as (H & _ & _).
  rewrite H; [reflexivity|].
  left. exists ("content-type", "text/plain"). split; [left|reflexivity].
Defined.

End AuthFacts.
